(** * Challenge engine of the slider-puzzle captcha service

    A shallow embedding of the Go sources

    - [internal/generator/generator.go]  (the puzzle generator),
    - the slider-puzzle service ([NewChallenge], [MakeEventStream], [main],
      [findFreePort], [connectToBalancer]),
    - the simple-button service ([cmd/captcha/main.go]),
    - the mock balancer ([RegisterInstance]) and the test client's handlers,

    together with the properties of the engine that the specification
    states about them.  Definitions come first, facts after them.

    Conventions.  Go's [int] is taken at its 64-bit width (amd64, arm64);
    an [int] is a [Z] and every arithmetic operation writes its wrap-around
    out ([GoInt.wrap]).  Byte strings are [string]s.  The in-memory cache is
    a [gmap] from challenge ids to items carrying an absolute expiration
    time; wall-clock time is an explicit argument, in nanoseconds. *)

From Stdlib Require Import ZArith String Ascii List Bool Lia DecimalString.
From stdpp Require Import base option gmap strings.
Import ListNotations.

Local Open Scope Z_scope.

(* ===================================================================== *)
(** ** Machine integers *)
(* ===================================================================== *)

Module GoInt.

Definition min_int : Z := - 2 ^ 63.
Definition max_int : Z := 2 ^ 63 - 1.

Definition in_range (z : Z) : Prop := min_int <= z <= max_int.

Definition in_rangeb (z : Z) : bool := (min_int <=? z) && (z <=? max_int).

(** Two's-complement reduction onto [min_int .. max_int]. *)
Definition wrap (z : Z) : Z := (z + 2 ^ 63) mod 2 ^ 64 - 2 ^ 63.

Definition add (a b : Z) : Z := wrap (a + b).
Definition sub (a b : Z) : Z := wrap (a - b).
Definition neg (a : Z) : Z := wrap (- a).

(** Go's [/] on integers truncates toward zero. *)
Definition quot (a b : Z) : Z := wrap (Z.quot a b).

End GoInt.

(* ===================================================================== *)
(** ** strconv.Atoi *)
(* ===================================================================== *)

(** [ch -= '0'; if ch > 9 { syntax error }] *)
Definition digit_of (ch : ascii) : option Z :=
  let n := Z.of_N (N_of_ascii ch) in
  if (48 <=? n) && (n <=? 57) then Some (n - 48) else None.

(** [n = n*10 + int(ch)] over the digits, most significant first. *)
Fixpoint parse_digits (s : string) (acc : Z) : option Z :=
  match s with
  | EmptyString => Some acc
  | String ch rest =>
      match digit_of ch with
      | Some d => parse_digits rest (acc * 10 + d)
      | None => None
      end
  end.

(** [strconv.Atoi]: an optional sign, then at least one decimal digit and
    nothing else; a value outside [int] is a range error.  [None] stands
    for either error ([ErrSyntax] or [ErrRange]). *)
Definition Atoi (s : string) : option Z :=
  match s with
  | EmptyString => None
  | String c rest =>
      let signed := (Ascii.eqb c "-" || Ascii.eqb c "+")%bool in
      let body := if signed then rest else s in
      match body with
      | EmptyString => None
      | _ =>
          match parse_digits body 0 with
          | None => None
          | Some n =>
              let v := if Ascii.eqb c "-" then - n else n in
              if GoInt.in_rangeb v then Some v else None
          end
      end
  end.

(* ===================================================================== *)
(** ** The challenge cache (github.com/patrickmn/go-cache) *)
(* ===================================================================== *)

(** [defaultExpiration = 5 * time.Minute], [cleanupInterval = 10 *
    time.Minute], as [time.Duration] values (nanoseconds). *)
Definition defaultExpiration : Z := 5 * 60 * 1000000000.
Definition cleanupInterval : Z := 10 * 60 * 1000000000.

(** [type solution struct { X int; Complexity int }] *)
Record solution : Type := mkSolution {
  X : Z;
  Complexity : Z
}.

(** A cache item: the stored object and the instant after which it is no
    longer served. *)
Record Item : Type := mkItem {
  Object : solution;
  Expiration : Z
}.

Abbreviation Cache := (gmap string Item).

(** Modelled from the spec: the cache library's source is not part of the
    repository sources.  An item is expired once the clock has passed its
    expiration instant (its age exceeds the time-to-live). *)
Definition expired (now : Z) (it : Item) : bool :=
  Expiration it <? now.

(** Modelled from the spec: the cache library's [Set], called by the service
    with [cache.DefaultExpiration]: insert or overwrite, the item expiring
    [defaultExpiration] after the call. *)
Definition cache_Set (c : Cache) (k : string) (v : solution) (now : Z) : Cache :=
  <[k := mkItem v (now + defaultExpiration)]> c.

(** Modelled from the spec: the cache library's [Get]: a plain read; an
    expired item is unreachable even though it has not been deleted. *)
Definition cache_Get (c : Cache) (k : string) (now : Z) : option solution :=
  match c !! k with
  | Some it => if expired now it then None else Some (Object it)
  | None => None
  end.

(** Modelled from the spec: the cache library's [Delete]: explicit removal. *)
Definition cache_Delete (c : Cache) (k : string) : Cache := delete k c.

(** Modelled from the spec: the cache library's janitor, run every
    [cleanupInterval]: removes the items whose age exceeds the time-to-live. *)
Definition cache_DeleteExpired (c : Cache) (now : Z) : Cache :=
  filter (fun kv => expired now (snd kv) = false) c.

(* ===================================================================== *)
(** ** Scoring (the body of [MakeEventStream] between lookup and send) *)
(* ===================================================================== *)

(** [tolerance := 5 - (sol.Complexity / 25); if tolerance < 1 { tolerance = 1 }] *)
Definition tolerance_of (sol : solution) : Z :=
  let tolerance := GoInt.sub 5 (GoInt.quot (Complexity sol) 25) in
  if tolerance <? 1 then 1 else tolerance.

(** [delta := clientX - sol.X; if delta < 0 { delta = -delta }] *)
Definition delta_of (sol : solution) (clientX : Z) : Z :=
  let delta := GoInt.sub clientX (X sol) in
  if delta <? 0 then GoInt.neg delta else delta.

(** [var confidence int32 = 0; if delta <= tolerance { confidence = 100 }] *)
Definition confidence_of (sol : solution) (clientX : Z) : Z :=
  if delta_of sol clientX <=? tolerance_of sol then 100 else 0.

(* ===================================================================== *)
(** ** Images (image, image/draw) *)
(* ===================================================================== *)

Record Point : Type := Pt { PX : Z; PY : Z }.

Record Rectangle : Type := mkRect { Min : Point; Max : Point }.

(** [image.Rect(x0, y0, x1, y1)]: the coordinates are put in order. *)
Definition Rect (x0 y0 x1 y1 : Z) : Rectangle :=
  let '(x0, x1) := if x1 <? x0 then (x1, x0) else (x0, x1) in
  let '(y0, y1) := if y1 <? y0 then (y1, y0) else (y0, y1) in
  mkRect (Pt x0 y0) (Pt x1 y1).

Definition Dx (r : Rectangle) : Z := GoInt.sub (PX (Max r)) (PX (Min r)).
Definition Dy (r : Rectangle) : Z := GoInt.sub (PY (Max r)) (PY (Min r)).

(** [p.In(r)]: the lower bounds are inclusive, the upper ones exclusive. *)
Definition inside (r : Rectangle) (x y : Z) : bool :=
  (PX (Min r) <=? x) && (x <? PX (Max r)) &&
  (PY (Min r) <=? y) && (y <? PY (Max r)).

(** [color.RGBA] *)
Record RGBA : Type := mkRGBA { cR : Z; cG : Z; cB : Z; cA : Z }.

(** An [image.Image]: its bounds and the colour at each point. *)
Record Image : Type := mkImage {
  Bounds : Rectangle;
  At : Z -> Z -> RGBA
}.

(** [image.NewRGBA(r)]: every pixel transparent black. *)
Definition NewRGBA (r : Rectangle) : Image :=
  mkImage r (fun _ _ => mkRGBA 0 0 0 0).

(** [image.NewUniform(c)]: one colour, unbounded. *)
Definition NewUniform (c : RGBA) : Image :=
  mkImage (mkRect (Pt (-1000000000) (-1000000000)) (Pt 1000000000 1000000000))
          (fun _ _ => c).

(** [draw.Draw(dst, r, src, sp, draw.Src)]: the pixels of [r], clipped to
    the destination and to the source, are replaced by the source's, [r.Min]
    in the destination being aligned with [sp] in the source. *)
Definition draw_Src (dst : Image) (r : Rectangle) (src : Image) (sp : Point) : Image :=
  mkImage (Bounds dst)
    (fun x y =>
       let sx := x - PX (Min r) + PX sp in
       let sy := y - PY (Min r) + PY sp in
       if inside r x y && inside (Bounds dst) x y && inside (Bounds src) sx sy
       then At src sx sy
       else At dst x y).

(* ===================================================================== *)
(** ** Results, randomness *)
(* ===================================================================== *)

(** What a call yields: a value, a returned [error], or a run-time panic. *)
Inductive outcome (A : Type) : Type :=
| Ok (a : A)
| Err (e : string)
| Panic.

Arguments Ok {A} a.
Arguments Err {A} e.
Arguments Panic {A}.

(** The process-wide random source: the sequence of raw values it will
    produce. *)
Definition Rand : Type := nat -> Z.

(** [rand.Intn(n)]: panics unless [0 < n]; otherwise some value of
    [0 .. n-1], and the source advances. *)
Definition rand_Intn (r : Rand) (n : Z) : option (Z * Rand) :=
  if n <=? 0 then None
  else Some (r O mod n, fun i => r (S i)).

(* ===================================================================== *)
(** ** The puzzle generator (internal/generator/generator.go) *)
(* ===================================================================== *)

Definition puzzleWidth : Z := 60.
Definition puzzleHeight : Z := 60.

(** [ChallengeData]: everything the HTML template is rendered from. *)
Record ChallengeData : Type := mkChallengeData {
  BackgroundImg : string;
  PuzzleImg : string;
  PuzzleYPos : Z;
  PuzzleWidth : Z;
  PuzzleHeight : Z;
  ContainerWidth : Z;
  ContainerHeight : Z;
  SliderMax : Z
}.

(** A parsed template, through what [Execute] writes for given data
    ([None]: execution fails).  The template text is an embedded asset. *)
Definition Template : Type := ChallengeData -> option string.

Record Generator : Type := mkGenerator {
  bgImage : Image;
  bgWidth : Z;
  bgHeight : Z;
  template : Template
}.

Section GeneratorCode.

(** The two encoders of the standard library, [png.Encode] (which can
    fail) and [base64.StdEncoding.EncodeToString]. *)
Variable png_Encode : Image -> option string.
Variable base64_EncodeToString : string -> string.

Definition imageToBase64 (img : Image) : outcome string :=
  match png_Encode img with
  | None => Err "failed to encode image to png"
  | Some buf => Ok (base64_EncodeToString buf)
  end.

(** [New], given what [png.Decode] made of the background asset and what
    [template.ParseFS] made of the template. *)
Definition New (decoded : option Image) (parsed : option Template)
  : outcome Generator :=
  match decoded with
  | None => Err "failed to decode background image"
  | Some bg =>
      let bounds := Bounds bg in
      match parsed with
      | None => Err "failed to parse html template"
      | Some tmpl => Ok (mkGenerator bg (Dx bounds) (Dy bounds) tmpl)
      end
  end.

(** The steps of [Generate], in the order of the source. *)

(** Choosing the position: [maxX], [maxY] and the two draws. *)
Definition choose_position (g : Generator) (r : Rand) : option (Z * Z * Rand) :=
  let maxX := GoInt.sub (GoInt.sub (bgWidth g) puzzleWidth) 10 in
  let maxY := GoInt.sub (GoInt.sub (bgHeight g) puzzleHeight) 10 in
  match rand_Intn r (GoInt.sub maxX puzzleWidth) with
  | None => None
  | Some (rx, r1) =>
      let puzzleX := GoInt.add rx puzzleWidth in
      match rand_Intn r1 (GoInt.sub maxY 10) with
      | None => None
      | Some (ry, r2) =>
          let puzzleY := GoInt.add ry 10 in
          Some (puzzleX, puzzleY, r2)
      end
  end.

Definition puzzleRect (puzzleX puzzleY : Z) : Rectangle :=
  Rect puzzleX puzzleY
       (GoInt.add puzzleX puzzleWidth) (GoInt.add puzzleY puzzleHeight).

(** Step 1: the piece, copied out of the background. *)
Definition cut_piece (g : Generator) (puzzleX puzzleY : Z) : Image :=
  let puzzleImg := NewRGBA (Rect 0 0 puzzleWidth puzzleHeight) in
  draw_Src puzzleImg (Bounds puzzleImg) (bgImage g) (Pt puzzleX puzzleY).

(** Step 2: the background, the piece's place painted half-transparent
    black. *)
Definition punch_hole (g : Generator) (puzzleX puzzleY : Z) : Image :=
  let backgroundWithHole := NewRGBA (Bounds (bgImage g)) in
  let backgroundWithHole :=
    draw_Src backgroundWithHole (Bounds backgroundWithHole) (bgImage g) (Pt 0 0) in
  let holeColor := NewUniform (mkRGBA 0 0 0 128) in
  draw_Src backgroundWithHole (puzzleRect puzzleX puzzleY) holeColor (Pt 0 0).

(** Step 4: the template data. *)
Definition challenge_data (g : Generator) (backgroundBase64 puzzleBase64 : string)
    (puzzleY : Z) : ChallengeData :=
  {| BackgroundImg := backgroundBase64;
     PuzzleImg := puzzleBase64;
     PuzzleYPos := puzzleY;
     PuzzleWidth := puzzleWidth;
     PuzzleHeight := puzzleHeight;
     ContainerWidth := bgWidth g;
     ContainerHeight := bgHeight g;
     SliderMax := GoInt.sub (bgWidth g) puzzleWidth |}.

(** [Generate]: the rendered HTML and the correct X coordinate.  A draw
    from an empty range panics ([rand.Intn]). *)
Definition Generate (g : Generator) (r : Rand) : outcome (string * Z) * Rand :=
  match choose_position g r with
  | None => (Panic, r)
  | Some (puzzleX, puzzleY, r2) =>
      match imageToBase64 (cut_piece g puzzleX puzzleY) with
      | Err e => (Err e, r2)
      | Panic => (Panic, r2)
      | Ok puzzleBase64 =>
          match imageToBase64 (punch_hole g puzzleX puzzleY) with
          | Err e => (Err e, r2)
          | Panic => (Panic, r2)
          | Ok backgroundBase64 =>
              let data := challenge_data g backgroundBase64 puzzleBase64 puzzleY in
              match template g data with
              | None => (Err "failed to execute template", r2)
              | Some html => (Ok (html, puzzleX), r2)
              end
          end
      end
  end.

End GeneratorCode.

(* ===================================================================== *)
(** ** Protocol messages (api/captcha/v1) *)
(* ===================================================================== *)

Module ChallengeRequest.
(** [Complexity] is a 32-bit field; [int(req.GetComplexity())] keeps its
    value. *)
Record t : Type := mk { Complexity : Z }.
End ChallengeRequest.

Module ChallengeResponse.
Record t : Type := mk { ChallengeId : string; Html : string }.
End ChallengeResponse.

Module ClientEvent.
Inductive EventTypeT : Type :=
| FRONTEND_EVENT
| OTHER_EVENT (code : Z).

Record t : Type := mk {
  EventType : EventTypeT;
  ChallengeId : string;
  Data : string
}.
End ClientEvent.

Module ServerEvent.
(** [ServerEvent{Event: &ServerEvent_Result{Result: &ServerEvent_ChallengeResult{..}}}] *)
Record t : Type := Result { ChallengeId : string; ConfidencePercent : Z }.
End ServerEvent.

(** The lines the service writes to its log. *)
Inductive LogMsg : Type :=
| LogGenerating (complexity : Z) (id : string)
| LogGenerated (correctX : Z)
| LogGenerateFailed (e : string)
| LogConnected
| LogStreamClosed
| LogRecvError (e : string)
| LogParseFailed (id : string)
| LogReceived (id : string) (clientX : Z)
| LogNotFound (id : string)
| LogSolved (id : string) (delta tolerance : Z)
| LogFailed (id : string) (expected got delta tolerance : Z)
| LogSendFailed (id : string).

(* ===================================================================== *)
(** ** The service (NewChallenge, MakeEventStream) *)
(* ===================================================================== *)

(** [captchaService]: the shared challenge cache and the generator. *)
Record captchaService : Type := mkService {
  challenges : Cache;
  generator : Generator
}.

Definition with_challenges (s : captchaService) (c : Cache) : captchaService :=
  mkService c (generator s).

(** What one [stream.Recv()] returns. *)
Inductive RecvResult : Type :=
| RecvEvent (event : ClientEvent.t)
| RecvEOF
| RecvError (e : string).

(** One turn of the stream loop as the environment decides it: what [Recv]
    returns, what the clock reads when the cache is consulted, and whether
    a [stream.Send] made in this turn succeeds. *)
Record Turn : Type := mkTurn {
  recv : RecvResult;
  now : Z;
  send_ok : bool
}.

(** The observable effects of a piece of handler code: the result events
    that reached the stream and the log lines written. *)
Definition Effects : Type := (list ServerEvent.t * list LogMsg)%type.

Section ServiceCode.

Variable png_Encode : Image -> option string.
Variable base64_EncodeToString : string -> string.

(** [NewChallenge], given the identifier [uuid.New().String()] produced,
    the clock reading at [Set] and the random source.  The generator's own
    log line ("Correct X is ...") is the second one. *)
Definition NewChallenge (s : captchaService) (req : ChallengeRequest.t)
    (challengeID : string) (now : Z) (r : Rand)
  : outcome ChallengeResponse.t * captchaService * Rand * list LogMsg :=
  let complexity := ChallengeRequest.Complexity req in
  match Generate png_Encode base64_EncodeToString (generator s) r with
  | (Ok (html, correctX), r') =>
      let sol := {| X := correctX; Complexity := complexity |} in
      (Ok (ChallengeResponse.mk challengeID html),
       with_challenges s (cache_Set (challenges s) challengeID sol now),
       r',
       [LogGenerating complexity challengeID; LogGenerated correctX])
  | (Err e, r') =>
      (Err "internal server error", s, r',
       [LogGenerating complexity challengeID; LogGenerateFailed e])
  | (Panic, r') =>
      (Panic, s, r', [LogGenerating complexity challengeID])
  end.

(** The body of the stream loop for a received event. *)
Definition handle_event (c : Cache) (event : ClientEvent.t) (now : Z)
    (send_ok : bool) : Cache * Effects :=
  match ClientEvent.EventType event with
  | ClientEvent.FRONTEND_EVENT =>
      let challengeID := ClientEvent.ChallengeId event in
      let clientXStr := ClientEvent.Data event in
      match Atoi clientXStr with
      | None => (c, ([], [LogParseFailed challengeID]))
      | Some clientX =>
          match cache_Get c challengeID now with
          | None =>
              (c, ([], [LogReceived challengeID clientX; LogNotFound challengeID]))
          | Some sol =>
              let tolerance := tolerance_of sol in
              let delta := delta_of sol clientX in
              let confidence := confidence_of sol clientX in
              let verdict :=
                if delta <=? tolerance
                then LogSolved challengeID delta tolerance
                else LogFailed challengeID (X sol) clientX delta tolerance in
              let resultEvent := ServerEvent.Result challengeID confidence in
              (cache_Delete c challengeID,
               (if send_ok then [resultEvent] else [],
                [LogReceived challengeID clientX; verdict]
                  ++ (if send_ok then [] else [LogSendFailed challengeID])))
          end
      end
  | ClientEvent.OTHER_EVENT _ => (c, ([], []))
  end.

(** The stream loop over the turns the environment provides.  The last
    component is what the handler returned: [Some None] for [nil] after an
    orderly close, [Some (Some e)] for a receive error, and [None] when
    the handler is still waiting in [Recv] after the last turn. *)
Fixpoint stream_loop (c : Cache) (turns : list Turn)
  : Cache * Effects * option (option string) :=
  match turns with
  | [] => (c, ([], []), None)
  | t :: rest =>
      match recv t with
      | RecvEOF => (c, ([], [LogStreamClosed]), Some None)
      | RecvError e => (c, ([], [LogRecvError e]), Some (Some e))
      | RecvEvent event =>
          let '(c1, (out1, log1)) := handle_event c event (now t) (send_ok t) in
          let '(c2, (out2, log2), ret) := stream_loop c1 rest in
          (c2, (out1 ++ out2, log1 ++ log2), ret)
      end
  end.

Definition MakeEventStream (s : captchaService) (turns : list Turn)
  : captchaService * Effects * option (option string) :=
  let '(c, (out, log), ret) := stream_loop (challenges s) turns in
  (with_challenges s c, (out, LogConnected :: log), ret).

End ServiceCode.

(* ===================================================================== *)
(** ** Several streams on one cache: interleaved execution *)
(* ===================================================================== *)

(** Each connected stream runs [MakeEventStream] in a goroutine of its own,
    all on the same cache.  The cache serialises single calls only, so the
    points at which goroutines interleave are the calls [Recv], [Get],
    [Send] and [Delete].  [Control] says which call a handler makes next. *)
Inductive Control : Type :=
| AtRecv
| AtGet (challengeID : string) (clientX : Z)
| AtSend (challengeID : string) (confidence : Z)
| AtDelete (challengeID : string)
| Returned (ret : option string).

Record Handler : Type := mkHandler {
  pc : Control;
  inbox : list RecvResult;
  outbox : list ServerEvent.t
}.

(** One call of one handler. *)
Definition handler_step (c : Cache) (h : Handler) (now : Z) (send_ok : bool)
  : Cache * Handler :=
  match pc h with
  | AtRecv =>
      match inbox h with
      | [] => (c, h)
      | RecvEOF :: rest => (c, mkHandler (Returned None) rest (outbox h))
      | RecvError e :: rest => (c, mkHandler (Returned (Some e)) rest (outbox h))
      | RecvEvent event :: rest =>
          match ClientEvent.EventType event with
          | ClientEvent.FRONTEND_EVENT =>
              match Atoi (ClientEvent.Data event) with
              | None => (c, mkHandler AtRecv rest (outbox h))
              | Some clientX =>
                  (c, mkHandler (AtGet (ClientEvent.ChallengeId event) clientX)
                                rest (outbox h))
              end
          | ClientEvent.OTHER_EVENT _ => (c, mkHandler AtRecv rest (outbox h))
          end
      end
  | AtGet challengeID clientX =>
      match cache_Get c challengeID now with
      | None => (c, mkHandler AtRecv (inbox h) (outbox h))
      | Some sol =>
          (c, mkHandler (AtSend challengeID (confidence_of sol clientX))
                        (inbox h) (outbox h))
      end
  | AtSend challengeID confidence =>
      (c, mkHandler (AtDelete challengeID) (inbox h)
            (outbox h ++ (if send_ok
                          then [ServerEvent.Result challengeID confidence]
                          else [])))
  | AtDelete challengeID =>
      (cache_Delete c challengeID, mkHandler AtRecv (inbox h) (outbox h))
  | Returned _ => (c, h)
  end.

(** Runs a handler on to its next [Recv] (at most [fuel] calls). *)
Fixpoint finish_turn (fuel : nat) (c : Cache) (h : Handler) (now : Z)
    (send_ok : bool) : Cache * Handler :=
  match fuel with
  | O => (c, h)
  | S fuel' =>
      match pc h with
      | AtRecv | Returned _ => (c, h)
      | _ =>
          let '(c', h') := handler_step c h now send_ok in
          finish_turn fuel' c' h' now send_ok
      end
  end.

(** The shared cache and the handlers of the open streams. *)
Record System : Type := mkSystem {
  cache : Cache;
  handlers : list Handler
}.

(** A scheduling decision: which handler makes its next call, with the
    clock reading and the fate of a send made by that call. *)
Record Tick : Type := mkTick {
  who : nat;
  tick_now : Z;
  tick_send_ok : bool
}.

Definition system_step (sys : System) (t : Tick) : System :=
  match handlers sys !! who t with
  | None => sys
  | Some h =>
      let '(c', h') := handler_step (cache sys) h (tick_now t) (tick_send_ok t) in
      mkSystem c' (<[who t := h']> (handlers sys))
  end.

Definition run (sys : System) (schedule : list Tick) : System :=
  fold_left system_step schedule sys.

(** The result events for [id] in a list, and over all streams. *)
Definition results_for (id : string) (out : list ServerEvent.t) : list ServerEvent.t :=
  List.filter (fun e => String.eqb (ServerEvent.ChallengeId e) id) out.

Definition all_results_for (id : string) (sys : System) : list ServerEvent.t :=
  results_for id (concat (map outbox (handlers sys))).

(* ===================================================================== *)
(** ** The scoring rule as the specification words it *)
(* ===================================================================== *)

(** [max(1, 5 - floor(complexity/25))], with the mathematical floor. *)
Definition spec_tolerance (complexity : Z) : Z :=
  Z.max 1 (5 - complexity / 25).

(** [100] if [|clientCoordinate - targetCoordinate| <= tolerance], else [0]. *)
Definition spec_confidence (complexity target client : Z) : Z :=
  if Z.abs (client - target) <=? spec_tolerance complexity then 100 else 0.

(** The same rule with Go's division, which truncates toward zero. *)
Definition trunc_tolerance (complexity : Z) : Z :=
  Z.max 1 (5 - Z.quot complexity 25).

(* ===================================================================== *)
(** ** Projections of results *)
(* ===================================================================== *)

Definition sent_by (r : Cache * Effects) : list ServerEvent.t := fst (snd r).

Definition loop_cache (r : Cache * Effects * option (option string)) : Cache :=
  fst (fst r).
Definition loop_sent (r : Cache * Effects * option (option string))
  : list ServerEvent.t := fst (snd (fst r)).
Definition loop_ret (r : Cache * Effects * option (option string))
  : option (option string) := snd r.

(* ===================================================================== *)
(** ** A sample generator, for concrete runs *)
(* ===================================================================== *)

Definition sample_background : Image :=
  mkImage (Rect 0 0 320 160) (fun x y => mkRGBA (x mod 256) (y mod 256) 0 255).

Definition sample_template : Template :=
  fun d => Some (BackgroundImg d ++ "|" ++ PuzzleImg d)%string.

(** An encoder that keeps the size of the image only. *)
Definition sample_png (img : Image) : option string :=
  if Dx (Bounds img) =? 60 then Some "piece" else Some "background".

Definition sample_base64 (buf : string) : string := buf.

Definition sample_generator : Generator :=
  mkGenerator sample_background 320 160 sample_template.

Definition sample_rand : Rand := fun i => match i with O => 5%Z | _ => 22%Z end.
Definition sample_rand' : Rand := fun i => match i with O => 100%Z | _ => 22%Z end.

Definition sample_service : captchaService := mkService ∅ sample_generator.

(* ===================================================================== *)
(** ** Histories of the cache *)
(* ===================================================================== *)

(** What can happen to the cache besides [NewChallenge]: an event handled
    on some stream, or a sweep of the janitor. *)
Inductive CacheOp : Type :=
| OpEvent (event : ClientEvent.t) (now : Z) (ok : bool)
| OpSweep (now : Z).

Definition apply_op (c : Cache) (op : CacheOp) : Cache :=
  match op with
  | OpEvent event now ok => fst (handle_event c event now ok)
  | OpSweep now => cache_DeleteExpired c now
  end.

(* ===================================================================== *)
(** ** Duplicate delivery on two streams *)
(* ===================================================================== *)

(** Two streams deliver the same solution for the entry ["a"]. *)
Definition duplicate_handler : Handler :=
  mkHandler AtRecv
    [RecvEvent (ClientEvent.mk ClientEvent.FRONTEND_EVENT "a" "37")] [].

Definition duplicate_system : System :=
  mkSystem {[ "a"%string := mkItem (mkSolution 40 25) 1000 ]}
           [duplicate_handler; duplicate_handler].

(** Both handlers receive, both look the entry up, both send, both delete. *)
Definition alternating_schedule : list Tick :=
  [mkTick 0 0 true; mkTick 1 0 true;
   mkTick 0 0 true; mkTick 1 0 true;
   mkTick 0 0 true; mkTick 1 0 true;
   mkTick 0 0 true; mkTick 1 0 true].

Definition duplicate_event : ClientEvent.t :=
  ClientEvent.mk ClientEvent.FRONTEND_EVENT "a" "37".

(* ===================================================================== *)
(** ** Start-up: findFreePort *)
(* ===================================================================== *)

Definition minPort : Z := 38000.
Definition maxPort : Z := 40000.

(** [%d] of an integer. *)
Definition format_int (z : Z) : string :=
  DecimalString.NilZero.string_of_int (Z.to_int z).

(** [findFreePort]'s loop from [port] on.  [listen_ok p] tells whether
    [net.Listen] on port [p] succeeds when the loop tries it (each port is
    tried at most once).  [None]: the loop has not ended within [fuel]
    iterations. *)
Fixpoint findFreePort_from (fuel : nat) (listen_ok : Z -> bool)
    (min max port : Z) : option (outcome Z) :=
  match fuel with
  | O => None
  | S fuel' =>
      if port <=? max then
        if listen_ok port then Some (Ok port)
        else findFreePort_from fuel' listen_ok min max (GoInt.add port 1)
      else
        Some (Err ("no free ports in range " ++ format_int min ++ "-"
                     ++ format_int max)%string)
  end.

Definition findFreePort (fuel : nat) (listen_ok : Z -> bool) (min max : Z)
  : option (outcome Z) :=
  findFreePort_from fuel listen_ok min max min.

(* ===================================================================== *)
(** ** Registration with the balancer: connectToBalancer *)
(* ===================================================================== *)

Module RegisterInstanceRequest.
Inductive EventTypeT : Type :=
| READY
| OTHER_TYPE (code : Z).

Record t : Type := mk {
  EventType : EventTypeT;
  InstanceId : string;
  ChallengeType : string;
  Host : string;
  PortNumber : Z;
  Timestamp : Z
}.

(** [req.Timestamp = ...] *)
Definition with_Timestamp (req : t) (ts : Z) : t :=
  mk (EventType req) (InstanceId req) (ChallengeType req) (Host req)
     (PortNumber req) ts.
End RegisterInstanceRequest.

(** The conversion [int32(port)]: the low 32 bits, signed. *)
Definition int32_of_int (z : Z) : Z := (z + 2 ^ 31) mod 2 ^ 32 - 2 ^ 31.

Definition challengeType : string := "slider-puzzle".
Definition instanceHost : string := "localhost".

(** How [connectToBalancer] ends: one of the three [log.Fatalf]s, the
    return after a failed heartbeat, or still waiting for the next tick. *)
Inductive BalancerExit : Type :=
| FatalDial
| FatalOpenStream
| FatalRegistration
| HeartbeatFailed
| AwaitingTick.

(** The loop [for range ticker.C]: each tick comes with the clock reading
    ([time.Now().Unix()]) and with whether the send succeeds.  The result
    lists the requests that were sent successfully. *)
Fixpoint heartbeat_loop (req : RegisterInstanceRequest.t) (ticks : list (Z * bool))
  : list RegisterInstanceRequest.t * BalancerExit :=
  match ticks with
  | [] => ([], AwaitingTick)
  | (ts, ok) :: rest =>
      let req := RegisterInstanceRequest.with_Timestamp req ts in
      if ok then
        let '(sent, exit) := heartbeat_loop req rest in
        (req :: sent, exit)
      else ([], HeartbeatFailed)
  end.

(** [connectToBalancer(host, port)], given whether the dial and the opening
    of the stream succeed, the identifier [uuid.New().String()] produces,
    the clock reading and the success of the first send, and the ticks. *)
Definition connectToBalancer (host : string) (port : Z)
    (dial_ok open_ok : bool) (instanceID : string) (start : Z)
    (register_ok : bool) (ticks : list (Z * bool))
  : list RegisterInstanceRequest.t * BalancerExit :=
  if negb dial_ok then ([], FatalDial)
  else if negb open_ok then ([], FatalOpenStream)
  else
    let req :=
      {| RegisterInstanceRequest.EventType := RegisterInstanceRequest.READY;
         RegisterInstanceRequest.InstanceId := instanceID;
         RegisterInstanceRequest.ChallengeType := challengeType;
         RegisterInstanceRequest.Host := host;
         RegisterInstanceRequest.PortNumber := int32_of_int port;
         RegisterInstanceRequest.Timestamp := start |} in
    if negb register_ok then ([], FatalRegistration)
    else
      let '(sent, exit) := heartbeat_loop req ticks in
      (req :: sent, exit).

(* ===================================================================== *)
(** ** The mock balancer: RegisterInstance *)
(* ===================================================================== *)

Inductive BalancerRecv : Type :=
| BalancerRequest (req : RegisterInstanceRequest.t)
| BalancerEOF
| BalancerError (e : string).

Inductive BalancerLog : Type :=
| BLogRegistering
| BLogDisconnected
| BLogRecvError (e : string)
| BLogEvent (id : string) (ty : RegisterInstanceRequest.EventTypeT)
            (host : string) (port : Z).

Definition balancer_log_of (req : RegisterInstanceRequest.t) : BalancerLog :=
  BLogEvent (RegisterInstanceRequest.InstanceId req)
            (RegisterInstanceRequest.EventType req)
            (RegisterInstanceRequest.Host req)
            (RegisterInstanceRequest.PortNumber req).

(** The receive loop of [RegisterInstance]: the log lines and what the
    handler returned ([None]: still waiting in [Recv]). *)
Fixpoint RegisterInstance_loop (recvs : list BalancerRecv)
  : list BalancerLog * option (option string) :=
  match recvs with
  | [] => ([], None)
  | BalancerEOF :: _ => ([BLogDisconnected], Some None)
  | BalancerError e :: _ => ([BLogRecvError e], Some (Some e))
  | BalancerRequest req :: rest =>
      let '(log, ret) := RegisterInstance_loop rest in
      (balancer_log_of req :: log, ret)
  end.

Definition RegisterInstance (recvs : list BalancerRecv)
  : list BalancerLog * option (option string) :=
  let '(log, ret) := RegisterInstance_loop recvs in
  (BLogRegistering :: log, ret).

(* ===================================================================== *)
(** ** Start-up of the slider-puzzle service: main *)
(* ===================================================================== *)

(** How far [main] gets: one of its [log.Fatalf]s, or serving. *)
Inductive Startup : Type :=
| FatalNoPort (e : string)
| FatalListen (port : Z)
| FatalGenerator (e : string)
| Serving (port : Z) (s : captchaService).

(** [main] up to [grpcServer.Serve]: the probe of [findFreePort], the
    listen on the port found ([relisten_ok]: it can fail, the probe's
    listener having been closed), the generator, the empty cache. *)
Definition main_startup (fuel : nat) (listen_ok : Z -> bool) (relisten_ok : bool)
    (decoded : option Image) (parsed : option Template) : option Startup :=
  match findFreePort fuel listen_ok minPort maxPort with
  | None => None
  | Some (Err e) => Some (FatalNoPort e)
  | Some Panic => Some (FatalNoPort "")
  | Some (Ok port) =>
      if negb relisten_ok then Some (FatalListen port)
      else
        match New decoded parsed with
        | Err e => Some (FatalGenerator e)
        | Panic => Some (FatalGenerator "")
        | Ok gen => Some (Serving port (mkService ∅ gen))
        end
  end.

(* ===================================================================== *)
(** ** The simple-button service (cmd/captcha/main.go) *)
(* ===================================================================== *)

Module SimpleButton.

(** This service stores the expected answer as a string. *)
Record Item : Type := mkItem {
  Object : string;
  Expiration : Z
}.

(** Modelled from the spec: the cache library's source is not part of the
    repository sources.  An item is expired once the clock has passed its
    expiration instant. *)
Definition expired (now : Z) (it : Item) : bool :=
  Expiration it <? now.

(** Modelled from the spec: the cache library's [Set] with
    [cache.DefaultExpiration]: insert or overwrite. *)
Definition cache_Set (c : gmap string Item) (k : string) (v : string) (now : Z)
  : gmap string Item :=
  <[k := mkItem v (now + defaultExpiration)]> c.

(** Modelled from the spec: the cache library's [Get]: a plain read that
    does not serve an expired item. *)
Definition cache_Get (c : gmap string Item) (k : string) (now : Z) : option string :=
  match c !! k with
  | Some it => if expired now it then None else Some (Object it)
  | None => None
  end.

(** Modelled from the spec: the cache library's [Delete]. *)
Definition cache_Delete (c : gmap string Item) (k : string) : gmap string Item :=
  delete k c.

Inductive Log : Type :=
| LogGenerating (id : string)
| LogReadFailed
| LogReceived (id : string) (clientSolution : string)
| LogNotFound (id : string)
| LogSolved (id : string)
| LogFailed (id : string) (expected got : string)
| LogSendFailed (id : string)
| LogStreamClosed
| LogRecvError (e : string)
| LogConnected.

(** [NewChallenge], given the identifier drawn, the clock reading and what
    [os.ReadFile("static/captcha.html")] returned. *)
Definition NewChallenge (c : gmap string Item) (challengeID : string) (now : Z)
    (htmlContent : option string)
  : outcome ChallengeResponse.t * gmap string Item * list Log :=
  match htmlContent with
  | None =>
      (Err "internal server error", c, [LogGenerating challengeID; LogReadFailed])
  | Some content =>
      (Ok (ChallengeResponse.mk challengeID content),
       cache_Set c challengeID "success" now,
       [LogGenerating challengeID])
  end.

(** The body of the stream loop for a received event. *)
Definition handle_event (c : gmap string Item) (event : ClientEvent.t) (now : Z)
    (send_ok : bool) : gmap string Item * (list ServerEvent.t * list Log) :=
  match ClientEvent.EventType event with
  | ClientEvent.FRONTEND_EVENT =>
      let challengeID := ClientEvent.ChallengeId event in
      let clientSolution := ClientEvent.Data event in
      match cache_Get c challengeID now with
      | None =>
          (c, ([], [LogReceived challengeID clientSolution; LogNotFound challengeID]))
      | Some expectedSolution =>
          let confidence :=
            if String.eqb clientSolution expectedSolution then 100 else 0 in
          let verdict :=
            if String.eqb clientSolution expectedSolution
            then LogSolved challengeID
            else LogFailed challengeID expectedSolution clientSolution in
          let resultEvent := ServerEvent.Result challengeID confidence in
          (cache_Delete c challengeID,
           (if send_ok then [resultEvent] else [],
            [LogReceived challengeID clientSolution; verdict]
              ++ (if send_ok then [] else [LogSendFailed challengeID])))
      end
  | ClientEvent.OTHER_EVENT _ => (c, ([], []))
  end.

Fixpoint stream_loop (c : gmap string Item) (turns : list Turn)
  : gmap string Item * (list ServerEvent.t * list Log) * option (option string) :=
  match turns with
  | [] => (c, ([], []), None)
  | t :: rest =>
      match recv t with
      | RecvEOF => (c, ([], [LogStreamClosed]), Some None)
      | RecvError e => (c, ([], [LogRecvError e]), Some (Some e))
      | RecvEvent event =>
          let '(c1, (out1, log1)) := handle_event c event (now t) (send_ok t) in
          let '(c2, (out2, log2), ret) := stream_loop c1 rest in
          (c2, (out1 ++ out2, log1 ++ log2), ret)
      end
  end.

Definition MakeEventStream (c : gmap string Item) (turns : list Turn)
  : gmap string Item * (list ServerEvent.t * list Log) * option (option string) :=
  let '(c', (out, log), ret) := stream_loop c turns in
  (c', (out, LogConnected :: log), ret).

End SimpleButton.

(* ===================================================================== *)
(** ** The test client (cmd/test_client/main.go) *)
(* ===================================================================== *)


Section TestClient.

Variable png_Encode : Image -> option string.
Variable base64_EncodeToString : string -> string.



End TestClient.

(* ===================================================================== *)
(** ** Measures on runs *)
(* ===================================================================== *)

(** The turns that deliver an event (neither a close nor an error). *)
Definition only_events (turns : list Turn) : Prop :=
  Forall (fun t => exists event, recv t = RecvEvent event) turns.

(** The results a handler has sent for [id], counting one more while it
    stands between its lookup and its send for [id]. *)
Definition pending_for (id : string) (h : Handler) : nat :=
  match pc h with
  | AtSend challengeID _ => if String.eqb challengeID id then 1%nat else 0%nat
  | _ => 0%nat
  end.

Definition answers_for (id : string) (h : Handler) : nat :=
  (length (results_for id (outbox h)) + pending_for id h)%nat.

(** A turn that the loop does not skip: anything but an event of a type
    other than [FRONTEND_EVENT]. *)
Definition solution_turn (t : Turn) : bool :=
  match recv t with
  | RecvEvent event =>
      match ClientEvent.EventType event with
      | ClientEvent.FRONTEND_EVENT => true
      | ClientEvent.OTHER_EVENT _ => false
      end
  | _ => true
  end.

(** A close or a receive error. *)
Definition terminal_turn (t : Turn) : Prop :=
  recv t = RecvEOF \/ exists e, recv t = RecvError e.

(** The ticks up to the first one whose send fails. *)
Fixpoint successful_prefix (ticks : list (Z * bool)) : list (Z * bool) :=
  match ticks with
  | (ts, true) :: rest => (ts, true) :: successful_prefix rest
  | _ => []
  end.

(** What holds of every reachable handler, for a given id: it has answered
    at most once, and once it has, the entry is gone or about to be deleted
    by this very handler. *)
Definition handler_inv (id : string) (c : Cache) (h : Handler) : Prop :=
  (answers_for id h <= 1)%nat
  /\ (length (results_for id (outbox h)) = 1%nat ->
      pc h = AtDelete id \/ c !! id = None).

Definition system_inv (id : string) (sys : System) : Prop :=
  Forall (handler_inv id (cache sys)) (handlers sys).

(* ===================================================================== *)
(** ** Identifiers (github.com/google/uuid) *)
(* ===================================================================== *)






(** An encoder that reads the picture: it tells whether the pixel at
    (70, 40) is the half-transparent black of a hole. *)
Definition sample_probe_png (img : Image) : option string :=
  Some (if Z.eqb (cA (At img 70 40)) 128
        then "hole at 70"%string else "no hole at 70"%string).

(* ===================================================================== *)
(** ** Concrete runs of the parser and of the scoring *)
(* ===================================================================== *)

Example confidence_50_3 : confidence_of (mkSolution 40 50) 43 = 100.
Proof. reflexivity. Qed.

Example confidence_50_4 : confidence_of (mkSolution 40 50) 44 = 0.
Proof. reflexivity. Qed.

Example Atoi_37 : Atoi "37" = Some 37.
Proof. reflexivity. Qed.

Example Atoi_abc : Atoi "abc" = None.
Proof. reflexivity. Qed.

Example Atoi_neg : Atoi "-9223372036854775808" = Some (- 2 ^ 63).
Proof. reflexivity. Qed.

Example Atoi_big : Atoi "9223372036854775808" = None.
Proof. reflexivity. Qed.

(* ===================================================================== *)
(** ** Integer facts *)
(* ===================================================================== *)

Lemma wrap_in_range (z : Z) : GoInt.in_range z -> GoInt.wrap z = z.
Proof.
  unfold GoInt.in_range, GoInt.wrap, GoInt.min_int, GoInt.max_int.
  intros H. rewrite Z.mod_small by lia. lia.
Qed.

Lemma wrap_range (z : Z) : GoInt.in_range (GoInt.wrap z).
Proof.
  unfold GoInt.in_range, GoInt.wrap, GoInt.min_int, GoInt.max_int.
  pose proof (Z.mod_pos_bound (z + 2 ^ 63) (2 ^ 64) ltac:(lia)). lia.
Qed.

Lemma in_rangeb_spec (z : Z) : GoInt.in_rangeb z = true <-> GoInt.in_range z.
Proof.
  unfold GoInt.in_rangeb, GoInt.in_range.
  rewrite andb_true_iff, !Z.leb_le. tauto.
Qed.

Lemma Atoi_in_range (s : string) (v : Z) : Atoi s = Some v -> GoInt.in_range v.
Proof.
  unfold Atoi. destruct s as [|c rest]; [discriminate|].
  destruct (if (Ascii.eqb c "-" || Ascii.eqb c "+")%bool then rest else String c rest);
    [discriminate|].
  destruct (parse_digits _ 0); [|discriminate].
  destruct (GoInt.in_rangeb _) eqn:E; [|discriminate].
  intros [= <-]. now apply in_rangeb_spec.
Qed.

(** Truncating and flooring division agree on a non-negative dividend. *)
Lemma quot_25_bounds (z : Z) :
  GoInt.in_range z -> GoInt.in_range (Z.quot z 25) /\ GoInt.in_range (5 - Z.quot z 25).
Proof.
  unfold GoInt.in_range, GoInt.min_int, GoInt.max_int. intros H.
  assert (Hq : - 2 ^ 63 <= 25 * Z.quot z 25 + Z.rem z 25 <= 2 ^ 63 - 1)
    by (rewrite <- Z.quot_rem' ; exact H).
  assert (Hr : -25 < Z.rem z 25 < 25).
  { pose proof (Z.rem_bound_abs z 25 ltac:(lia)). lia. }
  lia.
Qed.

Lemma tolerance_of_trunc (sol : solution) :
  GoInt.in_range (Complexity sol) ->
  tolerance_of sol = trunc_tolerance (Complexity sol).
Proof.
  intros H. destruct (quot_25_bounds _ H) as [Hq Hs].
  unfold tolerance_of, trunc_tolerance, GoInt.sub, GoInt.quot.
  rewrite (wrap_in_range _ Hq), (wrap_in_range _ Hs).
  destruct (Z.ltb_spec (5 - Z.quot (Complexity sol) 25) 1); lia.
Qed.

Lemma delta_of_abs (sol : solution) (clientX : Z) :
  GoInt.min_int < clientX - X sol <= GoInt.max_int ->
  delta_of sol clientX = Z.abs (clientX - X sol).
Proof.
  intros H. unfold delta_of, GoInt.sub, GoInt.neg.
  rewrite wrap_in_range by (unfold GoInt.in_range; lia).
  destruct (Z.ltb_spec (clientX - X sol) 0).
  - rewrite wrap_in_range; [lia|].
    unfold GoInt.in_range, GoInt.min_int, GoInt.max_int in *. lia.
  - lia.
Qed.

Lemma tolerance_of_ge_1 (sol : solution) : 1 <= tolerance_of sol.
Proof.
  unfold tolerance_of.
  destruct (Z.ltb_spec (GoInt.sub 5 (GoInt.quot (Complexity sol) 25)) 1); lia.
Qed.

(* ===================================================================== *)
(** ** Cache facts *)
(* ===================================================================== *)

Lemma cache_Get_Delete_eq (c : Cache) (k : string) (now : Z) :
  cache_Get (cache_Delete c k) k now = None.
Proof. unfold cache_Get, cache_Delete. now rewrite lookup_delete_eq. Qed.

Lemma cache_Get_Delete_ne (c : Cache) (k k' : string) (now : Z) :
  k <> k' -> cache_Get (cache_Delete c k) k' now = cache_Get c k' now.
Proof. intros H. unfold cache_Get, cache_Delete. now rewrite lookup_delete_ne. Qed.

Lemma cache_Get_Set_eq (c : Cache) (k : string) (v : solution) (t now : Z) :
  now <= t + defaultExpiration ->
  cache_Get (cache_Set c k v t) k now = Some v.
Proof.
  intros H. unfold cache_Get, cache_Set, expired.
  rewrite lookup_insert_eq. simpl.
  destruct (Z.ltb_spec (t + defaultExpiration) now); [lia | reflexivity].
Qed.

Lemma cache_Get_Set_late (c : Cache) (k : string) (v : solution) (t now : Z) :
  t + defaultExpiration < now ->
  cache_Get (cache_Set c k v t) k now = None.
Proof.
  intros H. unfold cache_Get, cache_Set, expired.
  rewrite lookup_insert_eq. simpl.
  destruct (Z.ltb_spec (t + defaultExpiration) now); [reflexivity | lia].
Qed.

Lemma cache_Get_None_absent (c : Cache) (k : string) (now : Z) :
  c !! k = None -> cache_Get c k now = None.
Proof. intros H. unfold cache_Get. now rewrite H. Qed.

(** The handler only ever deletes: an item of the cache after an event is
    the item that was there before. *)
Lemma handle_event_shrinks (c : Cache) (event : ClientEvent.t) (now : Z)
    (ok : bool) (k : string) :
  fst (handle_event c event now ok) !! k = None \/
  fst (handle_event c event now ok) !! k = c !! k.
Proof.
  unfold handle_event.
  destruct (ClientEvent.EventType event); [|now right].
  destruct (Atoi _); [|now right].
  destruct (cache_Get c _ now); [|now right].
  simpl. unfold cache_Delete.
  destruct (decide (ClientEvent.ChallengeId event = k)) as [->|Hne].
  - left. apply lookup_delete_eq.
  - right. now apply lookup_delete_ne.
Qed.

Lemma cache_DeleteExpired_shrinks (c : Cache) (now : Z) (k : string) :
  cache_DeleteExpired c now !! k = None \/
  cache_DeleteExpired c now !! k = c !! k.
Proof.
  unfold cache_DeleteExpired.
  destruct (filter _ c !! k) as [it|] eqn:E; [|now left].
  right. apply map_lookup_filter_Some in E as [E _]. now rewrite E.
Qed.

(* ===================================================================== *)
(** ** Scoring *)
(* ===================================================================== *)

(** Where the subtraction overflows the scoring leaves the rule: the
    distance [2^63] is scored as a hit. *)
Example confidence_of_overflow :
  confidence_of (mkSolution 60 0) (- 2 ^ 63 + 60) = 100.
Proof. reflexivity. Qed.

Example tolerance_of_negative : tolerance_of (mkSolution 0 (-25)) = 6.
Proof. reflexivity. Qed.

(** C2, as the specification states it, fails: a stored complexity of -1
    gives the tolerance 5 (Go's division truncates toward zero) where the
    floor gives 6, so a submission 6 pixels off is answered with confidence
    0 although the stated rule gives 100. *)
Lemma confidence_floor_tolerance_fails :
  sent_by (handle_event {[ "a" := mkItem (mkSolution 100 (-1)) 1000 ]}
             (ClientEvent.mk ClientEvent.FRONTEND_EVENT "a" "106") 0 true)
    = [ServerEvent.Result "a" 0]
  /\ spec_confidence (-1) 100 106 = 100.
Proof.
  split; [|reflexivity].
  unfold sent_by, handle_event, cache_Get. simpl.
  rewrite lookup_singleton_eq. reflexivity.
Qed.

Lemma wrap_add_period (z : Z) : GoInt.wrap (z + 2 ^ 64) = GoInt.wrap z.
Proof.
  unfold GoInt.wrap.
  replace (z + 2 ^ 64 + 2 ^ 63) with (z + 2 ^ 63 + 1 * 2 ^ 64) by lia.
  now rewrite Z_mod_plus_full.
Qed.

Lemma wrap_sub_period (z : Z) : GoInt.wrap (z - 2 ^ 64) = GoInt.wrap z.
Proof.
  unfold GoInt.wrap.
  replace (z - 2 ^ 64 + 2 ^ 63) with (z + 2 ^ 63 + (-1) * 2 ^ 64) by lia.
  now rewrite Z_mod_plus_full.
Qed.

(** Beyond [2^63] the distance comes out as its complement to [2^64]. *)
Lemma delta_of_far (sol : solution) (clientX : Z) :
  GoInt.in_range (X sol) -> GoInt.in_range clientX ->
  2 ^ 63 < Z.abs (clientX - X sol) ->
  delta_of sol clientX = 2 ^ 64 - Z.abs (clientX - X sol).
Proof.
  unfold GoInt.in_range, GoInt.min_int, GoInt.max_int. intros HX Hc Hfar.
  assert (R : forall z, - 2 ^ 63 <= z <= 2 ^ 63 - 1 -> GoInt.wrap z = z).
  { intros z Hz. apply wrap_in_range.
    unfold GoInt.in_range, GoInt.min_int, GoInt.max_int. lia. }
  unfold delta_of, GoInt.sub, GoInt.neg.
  destruct (Z.lt_ge_cases (clientX - X sol) 0) as [Hneg|Hpos].
  - rewrite <- (wrap_add_period (clientX - X sol)).
    rewrite (R (clientX - X sol + 2 ^ 64)) by lia.
    destruct (Z.ltb_spec (clientX - X sol + 2 ^ 64) 0); lia.
  - rewrite <- (wrap_sub_period (clientX - X sol)).
    rewrite (R (clientX - X sol - 2 ^ 64)) by lia.
    destruct (Z.ltb_spec (clientX - X sol - 2 ^ 64) 0); [|lia].
    rewrite R by lia. lia.
Qed.

(** C2 (amended): for a solution event that parses and finds its entry,
    whose distance [|clientX - X|] to the stored coordinate is not [2^63]
    and is less than [2^64] minus the tolerance (so in particular whenever
    [-2^63 < clientX - X < 2^63]), the result event sent carries confidence
    100 if that distance is at most [max(1, 5 - complexity/25)], the
    division truncating toward zero, and 0 otherwise; for a non-negative
    complexity this is the tolerance with the floor. *)
Theorem confidence_trunc_tolerance (c : Cache) (event : ClientEvent.t)
    (now : Z) (sol : solution) (clientX : Z) :
  ClientEvent.EventType event = ClientEvent.FRONTEND_EVENT ->
  Atoi (ClientEvent.Data event) = Some clientX ->
  cache_Get c (ClientEvent.ChallengeId event) now = Some sol ->
  GoInt.in_range (Complexity sol) ->
  GoInt.in_range (X sol) ->
  Z.abs (clientX - X sol) <> 2 ^ 63 ->
  Z.abs (clientX - X sol) < 2 ^ 64 - trunc_tolerance (Complexity sol) ->
  sent_by (handle_event c event now true)
    = [ServerEvent.Result (ClientEvent.ChallengeId event)
         (if Z.abs (clientX - X sol) <=? trunc_tolerance (Complexity sol)
          then 100 else 0)]
  /\ (0 <= Complexity sol ->
      trunc_tolerance (Complexity sol) = spec_tolerance (Complexity sol)).
Proof.
  intros Hty Hparse Hget Hc HX Hcorner Hfar. split.
  - unfold sent_by, handle_event. rewrite Hty, Hparse, Hget. simpl.
    unfold confidence_of. rewrite (tolerance_of_trunc _ Hc).
    pose proof (Atoi_in_range _ _ Hparse) as Hcx.
    assert (Htol : trunc_tolerance (Complexity sol) < 2 ^ 63).
    { destruct (quot_25_bounds _ Hc) as [_ Hs].
      unfold trunc_tolerance, GoInt.in_range, GoInt.min_int, GoInt.max_int in *.
      lia. }
    destruct (Z.lt_ge_cases (Z.abs (clientX - X sol)) (2 ^ 63)) as [Hnear|Hbig].
    + rewrite delta_of_abs
        by (unfold GoInt.min_int, GoInt.max_int; lia).
      reflexivity.
    + rewrite (delta_of_far sol clientX HX Hcx) by lia.
      destruct (Z.leb_spec (2 ^ 64 - Z.abs (clientX - X sol))
                           (trunc_tolerance (Complexity sol))); [lia|].
      destruct (Z.leb_spec (Z.abs (clientX - X sol))
                           (trunc_tolerance (Complexity sol))); [lia|].
      reflexivity.
  - intros Hpos. unfold trunc_tolerance, spec_tolerance.
    now rewrite Z.quot_div_nonneg by lia.
Qed.

Lemma confidence_trunc_tolerance_witness :
  sent_by (handle_event {[ "a" := mkItem (mkSolution 40 25) 1000 ]}
             (ClientEvent.mk ClientEvent.FRONTEND_EVENT "a" "37") 0 true)
    = [ServerEvent.Result "a" 100].
Proof.
  refine (proj1 (confidence_trunc_tolerance
            {[ "a" := mkItem (mkSolution 40 25) 1000 ]}
            (ClientEvent.mk ClientEvent.FRONTEND_EVENT "a" "37") 0
            (mkSolution 40 25) 37 _ _ _ _ _ _ _)).
  - reflexivity.
  - reflexivity.
  - unfold cache_Get. simpl. rewrite lookup_singleton_eq. reflexivity.
  - unfold GoInt.in_range, GoInt.min_int, GoInt.max_int. simpl. lia.
  - unfold GoInt.in_range, GoInt.min_int, GoInt.max_int. simpl. lia.
  - simpl. lia.
  - vm_compute. reflexivity.
Defined.

(** A submission below [-2^63 + X], where the subtraction wraps, is still
    scored by the rule. *)
Example confidence_of_wrapped :
  confidence_of (mkSolution 60 0) (- 2 ^ 63) = 0.
Proof. reflexivity. Qed.

(** C10: the tolerance computed for a solution event is at least 1; for a
    stored complexity that is not negative it is at most 5; and
    [NewChallenge] stores the requested complexity whatever its value. *)
Theorem tolerance_bounds :
  (forall sol : solution, 1 <= tolerance_of sol)
  /\ (forall sol : solution,
        0 <= Complexity sol <= GoInt.max_int -> tolerance_of sol <= 5)
  /\ (forall png b64 s req id now r resp s' r' log,
        NewChallenge png b64 s req id now r = (Ok resp, s', r', log) ->
        exists x,
          challenges s' !! id
          = Some (mkItem (mkSolution x (ChallengeRequest.Complexity req))
                         (now + defaultExpiration))).
Proof.
  split; [exact tolerance_of_ge_1|]. split.
  - intros sol H.
    rewrite tolerance_of_trunc
      by (unfold GoInt.in_range, GoInt.min_int, GoInt.max_int in *; lia).
    unfold trunc_tolerance.
    pose proof (Z.quot_pos (Complexity sol) 25 ltac:(lia) ltac:(lia)). lia.
  - intros png b64 s req id now r resp s' r' log H.
    unfold NewChallenge in H.
    destruct (Generate png b64 (generator s) r) as [[[html x]|e|] r0];
      inversion H; subst.
    exists x. simpl. unfold cache_Set. apply lookup_insert_eq.
Qed.

(* ===================================================================== *)
(** ** The stream loop, event by event *)
(* ===================================================================== *)

(** After an event the loop goes on with the next turn, on the cache the
    event left; it does not return because of the event. *)
Lemma stream_loop_event (c : Cache) (event : ClientEvent.t) (now : Z)
    (ok : bool) (rest : list Turn) :
  let r1 := handle_event c event now ok in
  let r := stream_loop c (mkTurn (RecvEvent event) now ok :: rest) in
  let r2 := stream_loop (fst r1) rest in
  loop_cache r = loop_cache r2
  /\ loop_sent r = sent_by r1 ++ loop_sent r2
  /\ loop_ret r = loop_ret r2.
Proof.
  simpl. unfold loop_cache, loop_sent, loop_ret, sent_by.
  destruct (handle_event c event now ok) as [c1 [o1 l1]]. simpl.
  destruct (stream_loop c1 rest) as [[c2 [o2 l2]] ret]. simpl. auto.
Qed.

Lemma handle_event_not_found (c : Cache) (event : ClientEvent.t) (now : Z)
    (ok : bool) :
  cache_Get c (ClientEvent.ChallengeId event) now = None ->
  fst (handle_event c event now ok) = c
  /\ sent_by (handle_event c event now ok) = [].
Proof.
  intros H. unfold sent_by, handle_event.
  destruct (ClientEvent.EventType event); [|auto].
  destruct (Atoi _); [|auto].
  rewrite H. auto.
Qed.

Lemma handle_event_found (c : Cache) (event : ClientEvent.t) (now : Z)
    (ok : bool) (sol : solution) (clientX : Z) :
  ClientEvent.EventType event = ClientEvent.FRONTEND_EVENT ->
  Atoi (ClientEvent.Data event) = Some clientX ->
  cache_Get c (ClientEvent.ChallengeId event) now = Some sol ->
  fst (handle_event c event now ok)
    = cache_Delete c (ClientEvent.ChallengeId event)
  /\ sent_by (handle_event c event now ok)
    = if ok
      then [ServerEvent.Result (ClientEvent.ChallengeId event)
              (confidence_of sol clientX)]
      else [].
Proof.
  intros Hty Hparse Hget. unfold sent_by, handle_event.
  rewrite Hty, Hparse, Hget. auto.
Qed.

(** C5: a solution event whose challenge id the cache does not serve
    (unknown, expired or already consumed) sends no result event and leaves
    the cache as it is, and the loop goes on with the next turn; and once an
    event has found and consumed an entry, a later event for the same id,
    whatever it submits, sends nothing. *)
Theorem absent_id_no_result :
  (forall (c : Cache) (event : ClientEvent.t) (now : Z) (ok : bool)
          (rest : list Turn),
      cache_Get c (ClientEvent.ChallengeId event) now = None ->
      fst (handle_event c event now ok) = c
      /\ sent_by (handle_event c event now ok) = []
      /\ loop_sent (stream_loop c (mkTurn (RecvEvent event) now ok :: rest))
         = loop_sent (stream_loop c rest)
      /\ loop_cache (stream_loop c (mkTurn (RecvEvent event) now ok :: rest))
         = loop_cache (stream_loop c rest)
      /\ loop_ret (stream_loop c (mkTurn (RecvEvent event) now ok :: rest))
         = loop_ret (stream_loop c rest))
  /\ (forall (c : Cache) (event event' : ClientEvent.t) (now now' : Z)
             (ok ok' : bool) (sol : solution) (clientX : Z),
        ClientEvent.EventType event = ClientEvent.FRONTEND_EVENT ->
        Atoi (ClientEvent.Data event) = Some clientX ->
        cache_Get c (ClientEvent.ChallengeId event) now = Some sol ->
        ClientEvent.ChallengeId event' = ClientEvent.ChallengeId event ->
        sent_by (handle_event (fst (handle_event c event now ok))
                              event' now' ok') = []).
Proof.
  split.
  - intros c event now ok rest H.
    destruct (handle_event_not_found c event now ok H) as [Hc Hs].
    destruct (stream_loop_event c event now ok rest) as (L1 & L2 & L3).
    rewrite Hc in L1, L2, L3. rewrite Hs in L2. simpl in L2. auto.
  - intros c event event' now now' ok ok' sol clientX Hty Hparse Hget Hid.
    destruct (handle_event_found c event now ok sol clientX Hty Hparse Hget)
      as [Hc _].
    rewrite Hc. apply handle_event_not_found.
    rewrite Hid. apply cache_Get_Delete_eq.
Qed.

(** C6: a solution event whose data [Atoi] rejects sends no result event
    and leaves the cache unchanged, whatever the cache holds (the cache is
    not consulted: the effects are the same on every cache), and the loop
    goes on with the next turn. *)
Theorem malformed_data_dropped (c : Cache) (event : ClientEvent.t) (now : Z)
    (ok : bool) (rest : list Turn) :
  Atoi (ClientEvent.Data event) = None ->
  fst (handle_event c event now ok) = c
  /\ sent_by (handle_event c event now ok) = []
  /\ (forall c' : Cache,
        fst (handle_event c' event now ok) = c'
        /\ snd (handle_event c' event now ok) = snd (handle_event c event now ok))
  /\ loop_sent (stream_loop c (mkTurn (RecvEvent event) now ok :: rest))
     = loop_sent (stream_loop c rest)
  /\ loop_cache (stream_loop c (mkTurn (RecvEvent event) now ok :: rest))
     = loop_cache (stream_loop c rest)
  /\ loop_ret (stream_loop c (mkTurn (RecvEvent event) now ok :: rest))
     = loop_ret (stream_loop c rest).
Proof.
  intros H.
  assert (Hev : forall c0 : Cache,
             fst (handle_event c0 event now ok) = c0
             /\ sent_by (handle_event c0 event now ok) = []
             /\ snd (handle_event c0 event now ok) = snd (handle_event c event now ok)).
  { intros c0. unfold sent_by, handle_event.
    destruct (ClientEvent.EventType event); [rewrite H|]; auto. }
  destruct (Hev c) as (Hc & Hs & _).
  destruct (stream_loop_event c event now ok rest) as (L1 & L2 & L3).
  rewrite Hc in L1, L2, L3. rewrite Hs in L2. simpl in L2.
  repeat split; auto; apply (Hev c').
Qed.

(** C9: a solution event that parses and finds its entry removes the entry,
    whatever the confidence and whether or not the result could be sent; the
    loop goes on with the next turn on the cache without the entry. *)
Theorem found_entry_deleted (c : Cache) (event : ClientEvent.t) (now : Z)
    (ok : bool) (sol : solution) (clientX : Z) (rest : list Turn) :
  ClientEvent.EventType event = ClientEvent.FRONTEND_EVENT ->
  Atoi (ClientEvent.Data event) = Some clientX ->
  cache_Get c (ClientEvent.ChallengeId event) now = Some sol ->
  fst (handle_event c event now ok) = delete (ClientEvent.ChallengeId event) c
  /\ fst (handle_event c event now ok) !! ClientEvent.ChallengeId event = None
  /\ (forall now' : Z,
        cache_Get (fst (handle_event c event now ok))
                  (ClientEvent.ChallengeId event) now' = None)
  /\ loop_cache (stream_loop c (mkTurn (RecvEvent event) now ok :: rest))
     = loop_cache (stream_loop (delete (ClientEvent.ChallengeId event) c) rest)
  /\ loop_ret (stream_loop c (mkTurn (RecvEvent event) now ok :: rest))
     = loop_ret (stream_loop (delete (ClientEvent.ChallengeId event) c) rest).
Proof.
  intros Hty Hparse Hget.
  destruct (handle_event_found c event now ok sol clientX Hty Hparse Hget)
    as [Hc _].
  destruct (stream_loop_event c event now ok rest) as (L1 & _ & L3).
  rewrite Hc in *. unfold cache_Delete in *.
  repeat split; auto.
  - apply lookup_delete_eq.
  - intros now'. apply (cache_Get_Delete_eq c).
Qed.

(* ===================================================================== *)
(** ** Concrete runs of the generator *)
(* ===================================================================== *)

Example New_sample :
  New (Some sample_background) (Some sample_template) = Ok sample_generator.
Proof. reflexivity. Qed.

Example choose_position_sample :
  option_map fst (choose_position sample_generator sample_rand) = Some (65, 32).
Proof. reflexivity. Qed.

Example choose_position_sample' :
  option_map fst (choose_position sample_generator sample_rand') = Some (160, 32).
Proof. reflexivity. Qed.

Example Generate_sample :
  fst (Generate sample_png sample_base64 sample_generator sample_rand)
  = Ok ("background|piece"%string, 65).
Proof. reflexivity. Qed.

(** A background too narrow for a piece: the draw panics. *)
Example Generate_narrow :
  fst (Generate sample_png sample_base64
         (mkGenerator sample_background 130 160 sample_template) sample_rand)
  = Panic.
Proof. reflexivity. Qed.

(* ===================================================================== *)
(** ** The generator *)
(* ===================================================================== *)

Section GeneratorFacts.

Variable png_Encode : Image -> option string.
Variable base64_EncodeToString : string -> string.

(** What a successful [Generate] went through. *)
Lemma Generate_Ok_inv (g : Generator) (r r' : Rand) (html : string) (x : Z) :
  Generate png_Encode base64_EncodeToString g r = (Ok (html, x), r') ->
  exists y pz bg,
    choose_position g r = Some (x, y, r')
    /\ imageToBase64 png_Encode base64_EncodeToString (cut_piece g x y) = Ok pz
    /\ imageToBase64 png_Encode base64_EncodeToString (punch_hole g x y) = Ok bg
    /\ template g (challenge_data g bg pz y) = Some html.
Proof.
  unfold Generate.
  destruct (choose_position g r) as [[[px py] r2]|]; [|discriminate].
  destruct (imageToBase64 _ _ (cut_piece g px py)) as [pz|e|] eqn:Hp;
    try discriminate.
  destruct (imageToBase64 _ _ (punch_hole g px py)) as [bg|e|] eqn:Hb;
    try discriminate.
  destruct (template g _) as [h|] eqn:Ht; [|discriminate].
  intros [= <- <- <-]. exists py, pz, bg. auto.
Qed.

(** The two draws, for a background whose sizes are those of an image. *)
Lemma choose_position_bounds (g : Generator) (r r' : Rand) (x y : Z) :
  0 <= bgWidth g <= GoInt.max_int ->
  0 <= bgHeight g <= GoInt.max_int ->
  choose_position g r = Some (x, y, r') ->
  puzzleWidth <= x < bgWidth g - puzzleWidth - 10
  /\ 10 <= y < bgHeight g - puzzleHeight - 10.
Proof.
  intros Hw Hh. unfold choose_position, rand_Intn, GoInt.add, GoInt.sub, puzzleWidth,
    puzzleHeight.
  assert (R : forall z, -200 <= z <= GoInt.max_int -> GoInt.wrap z = z).
  { intros z Hz. apply wrap_in_range.
    unfold GoInt.in_range, GoInt.min_int, GoInt.max_int in *. lia. }
  rewrite (R (bgWidth g - 60)) by lia.
  rewrite (R (bgWidth g - 60 - 10)) by lia.
  rewrite (R (bgWidth g - 60 - 10 - 60)) by lia.
  rewrite (R (bgHeight g - 60)) by lia.
  rewrite (R (bgHeight g - 60 - 10)) by lia.
  rewrite (R (bgHeight g - 60 - 10 - 10)) by lia.
  destruct (Z.leb_spec (bgWidth g - 60 - 10 - 60) 0) as [|Hx]; [discriminate|].
  destruct (Z.leb_spec (bgHeight g - 60 - 10 - 10) 0) as [|Hy]; [discriminate|].
  intros [= <- <- _].
  pose proof (Z.mod_pos_bound (r O) _ Hx).
  pose proof (Z.mod_pos_bound (r 1%nat) _ Hy).
  rewrite !R by lia. lia.
Qed.

(** The sizes [New] records are those of the decoded background. *)
Lemma New_sizes (decoded : Image) (tmpl : Template) (g : Generator) :
  PX (Min (Bounds decoded)) <= PX (Max (Bounds decoded)) ->
  PY (Min (Bounds decoded)) <= PY (Max (Bounds decoded)) ->
  PX (Max (Bounds decoded)) - PX (Min (Bounds decoded)) <= GoInt.max_int ->
  PY (Max (Bounds decoded)) - PY (Min (Bounds decoded)) <= GoInt.max_int ->
  New (Some decoded) (Some tmpl) = Ok g ->
  0 <= bgWidth g <= GoInt.max_int /\ 0 <= bgHeight g <= GoInt.max_int.
Proof.
  intros Hx Hy Hw Hh [= <-]. simpl. unfold Dx, Dy, GoInt.sub.
  rewrite !wrap_in_range;
    unfold GoInt.in_range, GoInt.min_int, GoInt.max_int in *; lia.
Qed.

End GeneratorFacts.

(** C4: for a generated challenge the returned coordinate lies in
    [[pieceWidth, backgroundWidth - pieceWidth - 10]]; the vertical offset
    that was drawn, at which the piece is cut and the hole painted, lies in
    [[10, backgroundHeight - pieceHeight - 10]] and is the one the template
    receives; and the slider maximum the template receives is
    [backgroundWidth - pieceWidth]. *)
Theorem generated_offsets_in_bounds (png : Image -> option string)
    (b64 : string -> string) (g : Generator) (r r' : Rand) (html : string)
    (x : Z) :
  0 <= bgWidth g <= GoInt.max_int ->
  0 <= bgHeight g <= GoInt.max_int ->
  Generate png b64 g r = (Ok (html, x), r') ->
  exists (y : Z) (puzzleBase64 backgroundBase64 : string),
    choose_position g r = Some (x, y, r')
    /\ puzzleWidth <= x <= bgWidth g - puzzleWidth - 10
    /\ 10 <= y <= bgHeight g - puzzleHeight - 10
    /\ imageToBase64 png b64 (cut_piece g x y) = Ok puzzleBase64
    /\ imageToBase64 png b64 (punch_hole g x y) = Ok backgroundBase64
    /\ template g
         {| BackgroundImg := backgroundBase64;
            PuzzleImg := puzzleBase64;
            PuzzleYPos := y;
            PuzzleWidth := 60;
            PuzzleHeight := 60;
            ContainerWidth := bgWidth g;
            ContainerHeight := bgHeight g;
            SliderMax := bgWidth g - puzzleWidth |} = Some html.
Proof.
  intros Hw Hh H.
  destruct (Generate_Ok_inv _ _ _ _ _ _ _ H) as (y & pz & bg & Hpos & Hp & Hb & Ht).
  destruct (choose_position_bounds g r r' x y Hw Hh Hpos) as [Hx Hy].
  exists y, pz, bg. repeat split; try assumption; try lia.
  unfold challenge_data in Ht.
  assert (Hs : GoInt.sub (bgWidth g) puzzleWidth = bgWidth g - puzzleWidth).
  { unfold GoInt.sub. apply wrap_in_range.
    unfold GoInt.in_range, GoInt.min_int, GoInt.max_int, puzzleWidth in *. lia. }
  rewrite Hs in Ht. exact Ht.
Qed.

Lemma generated_offsets_in_bounds_witness :
  exists (y : Z) (puzzleBase64 backgroundBase64 : string),
    choose_position sample_generator sample_rand = Some (65, y, fun _ => 22)
    /\ puzzleWidth <= 65 <= 320 - puzzleWidth - 10
    /\ 10 <= y <= 160 - puzzleHeight - 10
    /\ imageToBase64 sample_probe_png sample_base64 (cut_piece sample_generator 65 y)
       = Ok puzzleBase64
    /\ imageToBase64 sample_probe_png sample_base64 (punch_hole sample_generator 65 y)
       = Ok backgroundBase64
    /\ sample_template
         {| BackgroundImg := backgroundBase64;
            PuzzleImg := puzzleBase64;
            PuzzleYPos := y;
            PuzzleWidth := 60;
            PuzzleHeight := 60;
            ContainerWidth := 320;
            ContainerHeight := 160;
            SliderMax := 320 - puzzleWidth |}
       = Some "hole at 70|no hole at 70"%string.
Proof.
  apply (generated_offsets_in_bounds sample_probe_png sample_base64
           sample_generator sample_rand (fun _ => 22)
           "hole at 70|no hole at 70" 65).
  - unfold GoInt.max_int. simpl. lia.
  - unfold GoInt.max_int. simpl. lia.
  - reflexivity.
Defined.

(** With an encoder that reads the picture, the payloads of two runs that
    differ in the horizontal offset only are different: the background
    shows the hole where the piece was cut. *)
Example payload_shows_the_hole :
  fst (Generate sample_probe_png sample_base64 sample_generator sample_rand)
    = Ok ("hole at 70|no hole at 70"%string, 65)
  /\ fst (Generate sample_probe_png sample_base64 sample_generator sample_rand')
    = Ok ("no hole at 70|no hole at 70"%string, 160).
Proof. split; reflexivity. Qed.






(** Nothing in [NewChallenge] itself checks the identifier: given one that is
    live, it replaces the entry. *)
Example NewChallenge_replaces_live_entry :
  challenges
    (snd (fst (fst (NewChallenge sample_png sample_base64
                      (mkService {[ "u"%string := mkItem (mkSolution 200 0) 1000 ]}
                                 sample_generator)
                      (ChallengeRequest.mk 50) "u" 7 sample_rand))))
  = {[ "u"%string := mkItem (mkSolution 65 50) (7 + defaultExpiration) ]}.
Proof.
  unfold NewChallenge. simpl. unfold cache_Set. apply insert_singleton_eq.
Qed.


(* ===================================================================== *)
(** ** Expiry *)
(* ===================================================================== *)

Lemma apply_ops_shrink (ops : list CacheOp) (c : Cache) (k : string) :
  fold_left apply_op ops c !! k = None \/
  fold_left apply_op ops c !! k = c !! k.
Proof.
  revert c. induction ops as [|op ops IH]; intros c; simpl; [now right|].
  destruct (IH (apply_op c op)) as [H|H]; [now left|].
  rewrite H. destruct op as [event now ok|now]; simpl.
  - apply handle_event_shrinks.
  - apply cache_DeleteExpired_shrinks.
Qed.

(** C8: an entry created by [NewChallenge] at time [now] is not served to a
    lookup made later than [now + defaultExpiration], whatever happened to
    the cache in between (nothing at all, events, sweeps): the lookup finds
    nothing and a solution event for the id sends no result. *)
Theorem expired_entry_unreachable (png : Image -> option string)
    (b64 : string -> string) (s s' : captchaService) (req : ChallengeRequest.t)
    (challengeID : string) (now : Z) (r r' : Rand)
    (resp : ChallengeResponse.t) (log : list LogMsg)
    (ops : list CacheOp) (now' : Z) :
  NewChallenge png b64 s req challengeID now r = (Ok resp, s', r', log) ->
  now + defaultExpiration < now' ->
  cache_Get (fold_left apply_op ops (challenges s'))
            (ChallengeResponse.ChallengeId resp) now' = None
  /\ (forall (event : ClientEvent.t) (ok : bool),
        ClientEvent.ChallengeId event = ChallengeResponse.ChallengeId resp ->
        sent_by (handle_event (fold_left apply_op ops (challenges s'))
                              event now' ok) = []).
Proof.
  intros H Hlate.
  assert (Hget : cache_Get (fold_left apply_op ops (challenges s'))
                           (ChallengeResponse.ChallengeId resp) now' = None).
  { unfold NewChallenge in H.
    destruct (Generate png b64 (generator s) r) as [[[html x]|e|] r0];
      inversion H; subst; clear H. simpl.
    destruct (apply_ops_shrink ops
                (cache_Set (challenges s) challengeID
                   (mkSolution x (ChallengeRequest.Complexity req)) now)
                challengeID) as [E|E].
    - now apply cache_Get_None_absent.
    - unfold cache_Get. rewrite E.
      fold (cache_Get (cache_Set (challenges s) challengeID
                         (mkSolution x (ChallengeRequest.Complexity req)) now)
                      challengeID now').
      now apply cache_Get_Set_late. }
  split; [exact Hget|].
  intros event ok Hid. apply handle_event_not_found. now rewrite Hid.
Qed.

Lemma expired_entry_unreachable_witness :
  cache_Get
    (fold_left apply_op [OpSweep 1000]
       {[ "id-1"%string := mkItem (mkSolution 65 50) (7 + defaultExpiration) ]})
    "id-1" (8 + defaultExpiration) = None.
Proof.
  refine (proj1 (expired_entry_unreachable sample_png sample_base64 sample_service
           (mkService
              {[ "id-1"%string := mkItem (mkSolution 65 50) (7 + defaultExpiration) ]}
              sample_generator)
           (ChallengeRequest.mk 50) "id-1" 7 sample_rand (fun _ => 22)
           (ChallengeResponse.mk "id-1" "background|piece")
           [LogGenerating 50 "id-1"; LogGenerated 65]
           [OpSweep 1000] (8 + defaultExpiration) _ _)).
  - reflexivity.
  - lia.
Defined.

(** Just before the deadline the entry is still served. *)
Example entry_served_until_deadline :
  cache_Get {[ "id-1"%string := mkItem (mkSolution 65 50) (7 + defaultExpiration) ]}
            "id-1" (7 + defaultExpiration) = Some (mkSolution 65 50).
Proof. unfold cache_Get. rewrite lookup_singleton_eq. reflexivity. Qed.

(* ===================================================================== *)
(** ** Redemption: one stream, and several *)
(* ===================================================================== *)

(** X26: the call-by-call handler refines the loop body: a handler that
    receives an event and runs alone up to its next [Recv] leaves the cache
    [handle_event] leaves and has sent what [handle_event] sends. *)
Lemma turn_refines_handle_event (c : Cache) (event : ClientEvent.t)
    (rest : list RecvResult) (out : list ServerEvent.t) (now : Z) (ok : bool) :
  let first := handler_step c (mkHandler AtRecv (RecvEvent event :: rest) out) now ok in
  finish_turn 3 (fst first) (snd first) now ok
  = (fst (handle_event c event now ok),
     mkHandler AtRecv rest (out ++ sent_by (handle_event c event now ok))).
Proof.
  unfold handler_step, handle_event, sent_by. simpl.
  destruct (ClientEvent.EventType event); simpl;
    [|now rewrite app_nil_r].
  destruct (Atoi (ClientEvent.Data event)) as [clientX|]; simpl;
    [|now rewrite app_nil_r].
  unfold handler_step. simpl.
  destruct (cache_Get c (ClientEvent.ChallengeId event) now) as [sol|]; simpl;
    [|now rewrite app_nil_r].
  reflexivity.
Qed.

Lemma results_for_app (id : string) (l1 l2 : list ServerEvent.t) :
  results_for id (l1 ++ l2) = results_for id l1 ++ results_for id l2.
Proof. unfold results_for. apply List.filter_app. Qed.

(** An event sends nothing, or one result for its own id, whose entry it
    deletes. *)
Lemma handle_event_sent_cases (c : Cache) (event : ClientEvent.t) (now : Z)
    (ok : bool) :
  sent_by (handle_event c event now ok) = []
  \/ exists confidence : Z,
       sent_by (handle_event c event now ok)
         = [ServerEvent.Result (ClientEvent.ChallengeId event) confidence]
       /\ is_Some (c !! ClientEvent.ChallengeId event)
       /\ fst (handle_event c event now ok)
          = delete (ClientEvent.ChallengeId event) c.
Proof.
  unfold sent_by, handle_event, cache_Get.
  destruct (ClientEvent.EventType event); [|now left].
  destruct (Atoi _) as [clientX|]; [|now left].
  destruct (c !! ClientEvent.ChallengeId event) as [it|] eqn:E; [|now left].
  destruct (expired now it); [now left|].
  destruct ok; [|now left].
  right. eexists. simpl. repeat split. eauto.
Qed.

Lemma results_for_handle_event_absent (c : Cache) (event : ClientEvent.t)
    (now : Z) (ok : bool) (id : string) :
  c !! id = None ->
  results_for id (sent_by (handle_event c event now ok)) = [].
Proof.
  intros Habs.
  destruct (handle_event_sent_cases c event now ok) as [->|(conf & -> & [it Hit] & _)];
    [reflexivity|].
  unfold results_for. simpl.
  destruct (String.eqb_spec (ClientEvent.ChallengeId event) id) as [E|_];
    [|reflexivity].
  rewrite E in Hit. congruence.
Qed.

(** With no entry for [id] a stream sends no result for [id]. *)
Lemma stream_loop_absent (turns : list Turn) (c : Cache) (id : string) :
  c !! id = None ->
  results_for id (loop_sent (stream_loop c turns)) = [].
Proof.
  revert c. induction turns as [|[rv now ok] rest IH]; intros c Habs;
    [reflexivity|].
  destruct rv as [event| |e]; [|reflexivity|reflexivity].
  destruct (stream_loop_event c event now ok rest) as (_ & -> & _).
  rewrite results_for_app, results_for_handle_event_absent by exact Habs.
  simpl. apply IH.
  destruct (handle_event_shrinks c event now ok id) as [H|H]; [exact H|].
  now rewrite H.
Qed.

Lemma stream_loop_at_most_once (turns : list Turn) (c : Cache) (id : string) :
  (length (results_for id (loop_sent (stream_loop c turns))) <= 1)%nat.
Proof.
  revert c. induction turns as [|[rv now ok] rest IH]; intros c;
    [simpl; lia|].
  destruct rv as [event| |e]; [|simpl; lia|simpl; lia].
  destruct (stream_loop_event c event now ok rest) as (_ & -> & _).
  rewrite results_for_app, length_app.
  destruct (handle_event_sent_cases c event now ok)
    as [->|(conf & -> & _ & Hdel)].
  - simpl. apply IH.
  - unfold results_for at 1. simpl.
    destruct (String.eqb_spec (ClientEvent.ChallengeId event) id) as [E|_].
    + rewrite Hdel, E, stream_loop_absent by apply lookup_delete_eq.
      simpl. lia.
    + simpl. apply IH.
Qed.

(** C1, as the specification states it, fails: the lookup is a plain [Get]
    that leaves the entry in place (the [Delete] comes after the send), and
    when two streams deliver the same solution and their handlers alternate,
    both lookups find the entry and two results are sent for the one id. *)
Lemma duplicate_events_both_answered :
  cache_Get
    (fst (handler_step (cache duplicate_system)
            (mkHandler (AtGet "a" 37) [] []) 0 true)) "a" 0
    = Some (mkSolution 40 25)
  /\ all_results_for "a" (run duplicate_system alternating_schedule)
     = [ServerEvent.Result "a" 100; ServerEvent.Result "a" 100].
Proof.
  split.
  - unfold handler_step, cache_Get. simpl.
    rewrite !lookup_singleton_eq. simpl. rewrite lookup_singleton_eq.
    reflexivity.
  - vm_compute. reflexivity.
Qed.

(** C1 (amended): the lookup itself is a read and removes nothing; the
    entry is removed by the [Delete] that ends the handling of the event.
    Once an event that found the entry has been handled, every later lookup
    of the id finds nothing, and events handled one after the other (the
    turns of one stream, or of several streams whose handlers do not
    overlap) send at most one result for an id. *)
Theorem redeemed_at_most_once_in_sequence :
  (forall (c : Cache) (id : string) (clientX : Z) (inbox : list RecvResult)
          (out : list ServerEvent.t) (now : Z) (ok : bool),
      fst (handler_step c (mkHandler (AtGet id clientX) inbox out) now ok) = c)
  /\ (forall (c : Cache) (event : ClientEvent.t) (now now' : Z) (ok : bool)
             (sol : solution) (clientX : Z),
        ClientEvent.EventType event = ClientEvent.FRONTEND_EVENT ->
        Atoi (ClientEvent.Data event) = Some clientX ->
        cache_Get c (ClientEvent.ChallengeId event) now = Some sol ->
        cache_Get (fst (handle_event c event now ok))
                  (ClientEvent.ChallengeId event) now' = None)
  /\ (forall (c : Cache) (turns : list Turn) (id : string),
        (length (results_for id (loop_sent (stream_loop c turns))) <= 1)%nat).
Proof.
  split; [|split].
  - intros c id clientX inbox out now ok. unfold handler_step. simpl.
    destruct (cache_Get c id now); reflexivity.
  - intros c event now now' ok sol clientX Hty Hparse Hget.
    destruct (handle_event_found c event now ok sol clientX Hty Hparse Hget)
      as [-> _].
    apply cache_Get_Delete_eq.
  - intros c turns id. apply stream_loop_at_most_once.
Qed.

Lemma redeemed_at_most_once_in_sequence_witness :
  cache_Get
    (fst (handle_event (cache duplicate_system) duplicate_event 0 true))
    "a" 0 = None
  /\ (length
        (results_for "a"
           (loop_sent
              (stream_loop (cache duplicate_system)
                 [mkTurn (RecvEvent duplicate_event) 0 true;
                  mkTurn (RecvEvent duplicate_event) 0 true]))) <= 1)%nat.
Proof.
  split.
  - refine (proj1 (proj2 redeemed_at_most_once_in_sequence)
              (cache duplicate_system) duplicate_event 0 0 true
              (mkSolution 40 25) 37 _ _ _).
    + reflexivity.
    + reflexivity.
    + unfold cache_Get. simpl. rewrite lookup_singleton_eq. reflexivity.
  - apply (proj2 (proj2 redeemed_at_most_once_in_sequence)).
Defined.

(** The same two events handled one after the other: one result. *)
Example duplicate_events_in_sequence :
  loop_sent
    (stream_loop (cache duplicate_system)
       [mkTurn (RecvEvent duplicate_event) 0 true;
        mkTurn (RecvEvent duplicate_event) 0 true])
  = [ServerEvent.Result "a" 100].
Proof. vm_compute. reflexivity. Qed.

(* ===================================================================== *)
(** ** The handler theorems on concrete events *)
(* ===================================================================== *)

Lemma absent_id_no_result_witness :
  sent_by (handle_event ∅ duplicate_event 0 true) = []
  /\ sent_by (handle_event
                (fst (handle_event (cache duplicate_system) duplicate_event 0 true))
                (ClientEvent.mk ClientEvent.FRONTEND_EVENT "a" "40") 1 true) = [].
Proof.
  split.
  - refine (proj1 (proj2 (proj1 absent_id_no_result ∅ duplicate_event 0 true [] _))).
    reflexivity.
  - refine (proj2 absent_id_no_result (cache duplicate_system) duplicate_event
              (ClientEvent.mk ClientEvent.FRONTEND_EVENT "a" "40") 0 1 true true
              (mkSolution 40 25) 37 _ _ _ _).
    + reflexivity.
    + reflexivity.
    + unfold cache_Get. simpl. rewrite lookup_singleton_eq. reflexivity.
    + reflexivity.
Defined.

Lemma malformed_data_dropped_witness :
  fst (handle_event (cache duplicate_system)
         (ClientEvent.mk ClientEvent.FRONTEND_EVENT "a" "abc") 0 true)
    = cache duplicate_system
  /\ sent_by (handle_event (cache duplicate_system)
                (ClientEvent.mk ClientEvent.FRONTEND_EVENT "a" "abc") 0 true) = [].
Proof.
  pose proof (malformed_data_dropped (cache duplicate_system)
                (ClientEvent.mk ClientEvent.FRONTEND_EVENT "a" "abc") 0 true []
                eq_refl) as H.
  exact (conj (proj1 H) (proj1 (proj2 H))).
Defined.

Lemma found_entry_deleted_witness :
  fst (handle_event (cache duplicate_system)
         (ClientEvent.mk ClientEvent.FRONTEND_EVENT "a" "90") 0 false)
    !! "a"%string = None.
Proof.
  refine (proj1 (proj2 (found_entry_deleted (cache duplicate_system)
            (ClientEvent.mk ClientEvent.FRONTEND_EVENT "a" "90") 0 false
            (mkSolution 40 25) 90 [] _ _ _))).
  - reflexivity.
  - reflexivity.
  - unfold cache_Get. simpl. rewrite lookup_singleton_eq. reflexivity.
Defined.

Lemma tolerance_bounds_witness :
  1 <= tolerance_of (mkSolution 40 1000)
  /\ tolerance_of (mkSolution 40 0) <= 5
  /\ exists x : Z,
       ({[ "id-1"%string := mkItem (mkSolution 65 (-7)) (7 + defaultExpiration) ]}
          : Cache) !! "id-1"%string
       = Some (mkItem (mkSolution x (-7)) (7 + defaultExpiration)).
Proof.
  split; [|split].
  - apply (proj1 tolerance_bounds).
  - apply (proj1 (proj2 tolerance_bounds) (mkSolution 40 0)).
    unfold GoInt.max_int. simpl. lia.
  - exact (proj2 (proj2 tolerance_bounds) sample_png sample_base64 sample_service
             (ChallengeRequest.mk (-7)) "id-1" 7 sample_rand
             (ChallengeResponse.mk "id-1" "background|piece")
             (mkService
                {[ "id-1"%string := mkItem (mkSolution 65 (-7)) (7 + defaultExpiration) ]}
                sample_generator)
             (fun _ => 22)
             [LogGenerating (-7) "id-1"; LogGenerated 65]
             eq_refl).
Defined.

(* ===================================================================== *)
(** ** More on the generator: positions and pixels *)
(* ===================================================================== *)

(** The position chosen, for sizes that are those of an image, without the
    machine arithmetic. *)
Lemma choose_position_eq (g : Generator) (r : Rand) :
  0 <= bgWidth g <= GoInt.max_int ->
  0 <= bgHeight g <= GoInt.max_int ->
  choose_position g r
  = if bgWidth g - 130 <=? 0 then None
    else if bgHeight g - 80 <=? 0 then None
    else Some (r O mod (bgWidth g - 130) + 60,
               r 1%nat mod (bgHeight g - 80) + 10,
               fun i => r (S (S i))).
Proof.
  intros Hw Hh.
  unfold choose_position, rand_Intn, GoInt.add, GoInt.sub, puzzleWidth, puzzleHeight.
  assert (R : forall z, -200 <= z <= GoInt.max_int -> GoInt.wrap z = z).
  { intros z Hz. apply wrap_in_range.
    unfold GoInt.in_range, GoInt.min_int, GoInt.max_int in *. lia. }
  rewrite (R (bgWidth g - 60)) by lia.
  rewrite (R (bgWidth g - 60 - 10)) by lia.
  rewrite (R (bgWidth g - 60 - 10 - 60)) by lia.
  rewrite (R (bgHeight g - 60)) by lia.
  rewrite (R (bgHeight g - 60 - 10)) by lia.
  rewrite (R (bgHeight g - 60 - 10 - 10)) by lia.
  replace (bgWidth g - 60 - 10 - 60) with (bgWidth g - 130) by lia.
  replace (bgHeight g - 60 - 10 - 10) with (bgHeight g - 80) by lia.
  destruct (Z.leb_spec (bgWidth g - 130) 0) as [|Hx]; [reflexivity|].
  destruct (Z.leb_spec (bgHeight g - 80) 0) as [|Hy]; [reflexivity|].
  pose proof (Z.mod_pos_bound (r O) _ Hx).
  pose proof (Z.mod_pos_bound (r 1%nat) _ Hy).
  rewrite !R by lia. reflexivity.
Qed.

Lemma puzzleRect_eq (x y : Z) :
  0 <= x <= GoInt.max_int - 60 ->
  0 <= y <= GoInt.max_int - 60 ->
  puzzleRect x y = mkRect (Pt x y) (Pt (x + 60) (y + 60)).
Proof.
  intros Hx Hy. unfold puzzleRect, Rect, GoInt.add, puzzleWidth, puzzleHeight.
  rewrite !wrap_in_range
    by (unfold GoInt.in_range, GoInt.min_int, GoInt.max_int in *; lia).
  destruct (Z.ltb_spec (x + 60) x); [lia|].
  destruct (Z.ltb_spec (y + 60) y); [lia|]. reflexivity.
Qed.

(** X1: for a background whose sizes are those of an image, [Generate]
    panics exactly when the background is at most 130 pixels wide or at
    most 80 pixels high (the ranges of the draws are then empty). *)
Theorem Generate_panics_iff (png : Image -> option string)
    (b64 : string -> string) (g : Generator) (r : Rand) :
  0 <= bgWidth g <= GoInt.max_int ->
  0 <= bgHeight g <= GoInt.max_int ->
  fst (Generate png b64 g r) = Panic <-> bgWidth g <= 130 \/ bgHeight g <= 80.
Proof.
  intros Hw Hh. unfold Generate, imageToBase64.
  rewrite (choose_position_eq g r Hw Hh).
  destruct (Z.leb_spec (bgWidth g - 130) 0) as [Hx|Hx];
    [split; [lia|reflexivity]|].
  destruct (Z.leb_spec (bgHeight g - 80) 0) as [Hy|Hy];
    [split; [lia|reflexivity]|].
  destruct (png (cut_piece _ _ _)); simpl; [|split; [discriminate|lia]].
  destruct (png (punch_hole _ _ _)); simpl; [|split; [discriminate|lia]].
  destruct (template g _); simpl; split; try discriminate; lia.
Qed.

Lemma Generate_panics_iff_witness :
  fst (Generate sample_png sample_base64
         (mkGenerator sample_background 130 160 sample_template) sample_rand)
    = Panic <-> 130 <= 130 \/ 160 <= 80.
Proof.
  apply (Generate_panics_iff sample_png sample_base64
           (mkGenerator sample_background 130 160 sample_template) sample_rand);
    unfold GoInt.max_int; simpl; lia.
Defined.

(** X2: for a background more than 130 wide and more than 80 high, the
    positions [Generate] can choose are exactly the pairs with
    [60 <= x <= width - 71] and [10 <= y <= height - 71]: each of them is
    drawn by some random source, and no other is. *)
Theorem positions_exact (g : Generator) (x y : Z) :
  130 < bgWidth g <= GoInt.max_int ->
  80 < bgHeight g <= GoInt.max_int ->
  (exists (r r' : Rand), choose_position g r = Some (x, y, r'))
  <-> 60 <= x <= bgWidth g - 71 /\ 10 <= y <= bgHeight g - 71.
Proof.
  intros Hw Hh. split.
  - intros (r & r' & H).
    rewrite choose_position_eq in H by lia.
    destruct (Z.leb_spec (bgWidth g - 130) 0); [lia|].
    destruct (Z.leb_spec (bgHeight g - 80) 0); [lia|].
    injection H as <- <- _.
    pose proof (Z.mod_pos_bound (r O) (bgWidth g - 130) ltac:(lia)).
    pose proof (Z.mod_pos_bound (r 1%nat) (bgHeight g - 80) ltac:(lia)). lia.
  - intros [Hx Hy].
    exists (fun i => match i with O => x - 60 | _ => y - 10 end).
    eexists. rewrite choose_position_eq by lia.
    destruct (Z.leb_spec (bgWidth g - 130) 0); [lia|].
    destruct (Z.leb_spec (bgHeight g - 80) 0); [lia|].
    rewrite !Z.mod_small by lia.
    replace (x - 60 + 60) with x by lia.
    replace (y - 10 + 10) with y by lia. reflexivity.
Qed.

Lemma positions_exact_witness :
  (exists (r r' : Rand), choose_position sample_generator r = Some (249, 89, r'))
  <-> 60 <= 249 <= 320 - 71 /\ 10 <= 89 <= 160 - 71.
Proof.
  apply (positions_exact sample_generator 249 89);
    unfold GoInt.max_int; simpl; lia.
Defined.

(** X3: the rectangle of a chosen piece lies inside the background, at
    least 60 pixels from the left edge, 10 from the top and 11 from the
    right and bottom edges: the piece is never clipped. *)
Theorem piece_inside_background (g : Generator) (r r' : Rand) (x y px py : Z) :
  0 <= bgWidth g <= GoInt.max_int ->
  0 <= bgHeight g <= GoInt.max_int ->
  choose_position g r = Some (x, y, r') ->
  inside (puzzleRect x y) px py = true ->
  60 <= px < bgWidth g - 11 /\ 10 <= py < bgHeight g - 11
  /\ inside (Rect 0 0 (bgWidth g) (bgHeight g)) px py = true.
Proof.
  intros Hw Hh Hpos Hin.
  destruct (choose_position_bounds g r r' x y Hw Hh Hpos) as [Hx Hy].
  unfold puzzleWidth, puzzleHeight in *.
  rewrite puzzleRect_eq in Hin by lia.
  unfold inside in Hin. simpl in Hin.
  rewrite !andb_true_iff, !Z.leb_le, !Z.ltb_lt in Hin.
  assert (Hb : 60 <= px < bgWidth g - 11 /\ 10 <= py < bgHeight g - 11) by lia.
  split; [apply Hb|]. split; [apply Hb|].
  unfold Rect, inside.
  destruct (Z.ltb_spec (bgWidth g) 0); [lia|].
  destruct (Z.ltb_spec (bgHeight g) 0); [lia|]. simpl.
  rewrite !andb_true_iff, !Z.leb_le, !Z.ltb_lt. lia.
Qed.

Lemma piece_inside_background_witness :
  60 <= 100 < 320 - 11 /\ 10 <= 50 < 160 - 11
  /\ inside (Rect 0 0 320 160) 100 50 = true.
Proof.
  apply (piece_inside_background sample_generator sample_rand (fun _ => 22)
           65 32 100 50).
  - unfold GoInt.max_int. simpl. lia.
  - unfold GoInt.max_int. simpl. lia.
  - reflexivity.
  - reflexivity.
Defined.

Lemma inside_Rect_0 (w h x y : Z) :
  0 <= w -> 0 <= h ->
  inside (Rect 0 0 w h) x y = true <-> 0 <= x < w /\ 0 <= y < h.
Proof.
  intros Hw Hh. unfold Rect, inside.
  destruct (Z.ltb_spec w 0); [lia|]. destruct (Z.ltb_spec h 0); [lia|]. simpl.
  rewrite !andb_true_iff, !Z.leb_le, !Z.ltb_lt. lia.
Qed.

(** The pixels after the hole has been painted, for a rectangle placed
    inside the image. *)
Lemma punch_hole_At (g : Generator) (x y px py : Z) :
  0 <= bgWidth g <= GoInt.max_int ->
  0 <= bgHeight g <= GoInt.max_int ->
  Bounds (bgImage g) = Rect 0 0 (bgWidth g) (bgHeight g) ->
  60 <= x < bgWidth g - 60 - 10 ->
  10 <= y < bgHeight g - 60 - 10 ->
  inside (Bounds (bgImage g)) px py = true ->
  At (punch_hole g x y) px py
  = if inside (puzzleRect x y) px py
    then mkRGBA 0 0 0 128
    else At (bgImage g) px py.
Proof.
  intros Hw Hh Hb Hx Hy Hin.
  unfold punch_hole, draw_Src, NewUniform, NewRGBA. simpl.
  rewrite Hin. rewrite Hb in *.
  apply inside_Rect_0 in Hin; [|lia|lia].
  destruct (inside (puzzleRect x y) px py) eqn:E.
  - rewrite puzzleRect_eq in * by lia. simpl.
    unfold inside in E. simpl in E.
    rewrite !andb_true_iff, !Z.leb_le, !Z.ltb_lt in E.
    replace (inside _ (px - x + 0) (py - y + 0)) with true; [reflexivity|].
    symmetry. unfold inside. simpl.
    rewrite !andb_true_iff, !Z.leb_le, !Z.ltb_lt. lia.
  - simpl.
    assert (Hsrc : inside (Rect 0 0 (bgWidth g) (bgHeight g))
                     (px - PX (Min (Rect 0 0 (bgWidth g) (bgHeight g))) + 0)
                     (py - PY (Min (Rect 0 0 (bgWidth g) (bgHeight g))) + 0) = true).
    { unfold Rect.
      destruct (Z.ltb_spec (bgWidth g) 0); [lia|].
      destruct (Z.ltb_spec (bgHeight g) 0); [lia|]. simpl.
      unfold inside. simpl.
      rewrite !andb_true_iff, !Z.leb_le, !Z.ltb_lt. lia. }
    rewrite Hsrc.
    unfold Rect.
    destruct (Z.ltb_spec (bgWidth g) 0); [lia|].
    destruct (Z.ltb_spec (bgHeight g) 0); [lia|]. simpl.
    f_equal; lia.
Qed.

(** X4: in the background handed to the client, for a chosen position and a
    background image whose bounds start at the origin, the pixels of the
    piece's rectangle are half-transparent black and every other pixel of
    the image is the background's own. *)
Theorem hole_pixels (g : Generator) (r r' : Rand) (x y px py : Z) :
  0 <= bgWidth g <= GoInt.max_int ->
  0 <= bgHeight g <= GoInt.max_int ->
  Bounds (bgImage g) = Rect 0 0 (bgWidth g) (bgHeight g) ->
  choose_position g r = Some (x, y, r') ->
  inside (Bounds (bgImage g)) px py = true ->
  Bounds (punch_hole g x y) = Bounds (bgImage g)
  /\ At (punch_hole g x y) px py
     = if inside (puzzleRect x y) px py
       then mkRGBA 0 0 0 128
       else At (bgImage g) px py.
Proof.
  intros Hw Hh Hb Hpos Hin. split; [reflexivity|].
  destruct (choose_position_bounds g r r' x y Hw Hh Hpos) as [Hx Hy].
  unfold puzzleWidth, puzzleHeight in Hx, Hy.
  now apply punch_hole_At.
Qed.

Lemma hole_pixels_witness :
  Bounds (punch_hole sample_generator 65 32) = Bounds sample_background
  /\ At (punch_hole sample_generator 65 32) 70 40
     = if inside (puzzleRect 65 32) 70 40
       then mkRGBA 0 0 0 128
       else At sample_background 70 40.
Proof.
  apply (hole_pixels sample_generator sample_rand (fun _ => 22) 65 32 70 40).
  - unfold GoInt.max_int. simpl. lia.
  - unfold GoInt.max_int. simpl. lia.
  - reflexivity.
  - reflexivity.
  - reflexivity.
Defined.

(** X5: for a chosen position and a background image whose bounds start at
    the origin, every pixel [(i, j)] of the 60x60 piece is the background's
    pixel at [(x + i, y + j)], and that same pixel of the background handed
    to the client is the half-transparent black of the hole. *)
Theorem piece_pixels (g : Generator) (r r' : Rand) (x y i j : Z) :
  0 <= bgWidth g <= GoInt.max_int ->
  0 <= bgHeight g <= GoInt.max_int ->
  Bounds (bgImage g) = Rect 0 0 (bgWidth g) (bgHeight g) ->
  choose_position g r = Some (x, y, r') ->
  0 <= i < 60 -> 0 <= j < 60 ->
  Bounds (cut_piece g x y) = Rect 0 0 60 60
  /\ At (cut_piece g x y) i j = At (bgImage g) (x + i) (y + j)
  /\ At (punch_hole g x y) (x + i) (y + j) = mkRGBA 0 0 0 128.
Proof.
  intros Hw Hh Hb Hpos Hi Hj.
  destruct (choose_position_bounds g r r' x y Hw Hh Hpos) as [Hx Hy].
  unfold puzzleWidth, puzzleHeight in *.
  assert (Hin : inside (Bounds (bgImage g)) (x + i) (y + j) = true).
  { rewrite Hb. apply inside_Rect_0; lia. }
  split; [reflexivity|]. split.
  - unfold cut_piece, draw_Src, NewRGBA, puzzleWidth, puzzleHeight. simpl.
    replace (i - 0 + x) with (x + i) by lia.
    replace (j - 0 + y) with (y + j) by lia.
    rewrite Hin.
    replace (inside _ i j) with true; [reflexivity|].
    symmetry. unfold inside. simpl.
    rewrite !andb_true_iff, !Z.leb_le, !Z.ltb_lt. lia.
  - rewrite (punch_hole_At g x y (x + i) (y + j) Hw Hh Hb Hx Hy Hin).
    replace (inside (puzzleRect x y) (x + i) (y + j)) with true; [reflexivity|].
    symmetry. rewrite puzzleRect_eq by lia. unfold inside. simpl.
    rewrite !andb_true_iff, !Z.leb_le, !Z.ltb_lt. lia.
Qed.

Lemma piece_pixels_witness :
  Bounds (cut_piece sample_generator 65 32) = Rect 0 0 60 60
  /\ At (cut_piece sample_generator 65 32) 3 4 = At sample_background (65 + 3) (32 + 4)
  /\ At (punch_hole sample_generator 65 32) (65 + 3) (32 + 4) = mkRGBA 0 0 0 128.
Proof.
  apply (piece_pixels sample_generator sample_rand (fun _ => 22) 65 32 3 4).
  - unfold GoInt.max_int. simpl. lia.
  - unfold GoInt.max_int. simpl. lia.
  - reflexivity.
  - reflexivity.
  - lia.
  - lia.
Defined.

(** X6: for a background more than 130 wide and more than 80 high
    [Generate] never panics and takes exactly two values from the random
    source; it fails with the encoding error when the piece or the
    background cannot be encoded, with the template error when the template
    cannot be executed on the data, and otherwise returns the template's
    output on the two encoded images together with the drawn offset. *)
Theorem Generate_outcomes (png : Image -> option string)
    (b64 : string -> string) (g : Generator) (r : Rand) :
  130 < bgWidth g <= GoInt.max_int ->
  80 < bgHeight g <= GoInt.max_int ->
  let x := r O mod (bgWidth g - 130) + 60 in
  let y := r 1%nat mod (bgHeight g - 80) + 10 in
  Generate png b64 g r
  = (match png (cut_piece g x y), png (punch_hole g x y) with
     | Some piece, Some background =>
         match template g (challenge_data g (b64 background) (b64 piece) y) with
         | Some html => Ok (html, x)
         | None => Err "failed to execute template"
         end
     | _, _ => Err "failed to encode image to png"
     end,
     fun i => r (S (S i))).
Proof.
  intros Hw Hh x y. unfold Generate, imageToBase64.
  rewrite choose_position_eq by lia.
  destruct (Z.leb_spec (bgWidth g - 130) 0); [lia|].
  destruct (Z.leb_spec (bgHeight g - 80) 0); [lia|].
  fold x y.
  destruct (png (cut_piece g x y)); [|reflexivity].
  destruct (png (punch_hole g x y)); [|reflexivity].
  destruct (template g _); reflexivity.
Qed.

Lemma Generate_outcomes_witness :
  Generate (fun _ => None) sample_base64 sample_generator sample_rand
  = (Err "failed to encode image to png", fun i => sample_rand (S (S i))).
Proof.
  apply (Generate_outcomes (fun _ => None) sample_base64 sample_generator
           sample_rand);
    unfold GoInt.max_int; simpl; lia.
Defined.

(* ===================================================================== *)
(** ** More on the scoring *)
(* ===================================================================== *)

(** X7: the tolerance by complexity: 5 for 0..24, 4 for 25..49, 3 for
    50..74, 2 for 75..99, 1 from 100 on; and for a negative complexity it
    grows without bound, one more pixel for every 25 below zero. *)
Theorem tolerance_table (sol : solution) :
  GoInt.in_range (Complexity sol) ->
  (0 <= Complexity sol < 25 -> tolerance_of sol = 5)
  /\ (25 <= Complexity sol < 50 -> tolerance_of sol = 4)
  /\ (50 <= Complexity sol < 75 -> tolerance_of sol = 3)
  /\ (75 <= Complexity sol < 100 -> tolerance_of sol = 2)
  /\ (100 <= Complexity sol -> tolerance_of sol = 1)
  /\ (Complexity sol < 0 -> tolerance_of sol = 5 + (- Complexity sol) / 25).
Proof.
  intros H. rewrite (tolerance_of_trunc _ H). unfold trunc_tolerance.
  repeat split; intros Hc;
    try (rewrite Z.quot_div_nonneg by lia;
         Z.to_euclidean_division_equations; lia).
  replace (Complexity sol) with (- (- Complexity sol)) at 1 by lia.
  rewrite Z.quot_opp_l by lia.
  rewrite Z.quot_div_nonneg by lia.
  Z.to_euclidean_division_equations. lia.
Qed.

Lemma tolerance_table_witness :
  tolerance_of (mkSolution 40 60) = 3
  /\ tolerance_of (mkSolution 40 (-60)) = 5 + (- (-60)) / 25.
Proof.
  pose proof (tolerance_table (mkSolution 40 60)
                ltac:(unfold GoInt.in_range, GoInt.min_int, GoInt.max_int; simpl; lia))
    as H1.
  pose proof (tolerance_table (mkSolution 40 (-60))
                ltac:(unfold GoInt.in_range, GoInt.min_int, GoInt.max_int; simpl; lia))
    as H2.
  split.
  - apply (proj1 (proj2 (proj2 H1))). simpl. lia.
  - apply (proj2 (proj2 (proj2 (proj2 (proj2 H2))))). simpl. lia.
Defined.

(** X8: whatever the complexity stored, the exact coordinate and the two
    coordinates next to it are scored 100. *)
Theorem exact_answer_passes (sol : solution) :
  GoInt.min_int < X sol < GoInt.max_int ->
  confidence_of sol (X sol) = 100
  /\ confidence_of sol (X sol + 1) = 100
  /\ confidence_of sol (X sol - 1) = 100.
Proof.
  intros H. pose proof (tolerance_of_ge_1 sol) as Ht.
  unfold confidence_of.
  rewrite !delta_of_abs
    by (unfold GoInt.min_int, GoInt.max_int in *; lia).
  replace (X sol - X sol) with 0 by lia.
  replace (X sol + 1 - X sol) with 1 by lia.
  replace (X sol - 1 - X sol) with (-1) by lia.
  change (Z.abs 0) with 0. change (Z.abs 1) with 1. change (Z.abs (-1)) with 1.
  destruct (Z.leb_spec 0 (tolerance_of sol)); [|lia].
  destruct (Z.leb_spec 1 (tolerance_of sol)); [|lia]. auto.
Qed.

Lemma exact_answer_passes_witness :
  confidence_of (mkSolution 65 1000000) 65 = 100
  /\ confidence_of (mkSolution 65 1000000) (65 + 1) = 100
  /\ confidence_of (mkSolution 65 1000000) (65 - 1) = 100.
Proof.
  apply (exact_answer_passes (mkSolution 65 1000000)).
  unfold GoInt.min_int, GoInt.max_int. simpl. lia.
Defined.

(** X9: the score depends on the distance only and is monotone in it: a
    submission at least as close as one that is scored 100 is scored 100,
    on either side of the target. *)
Theorem closer_never_worse (sol : solution) (x1 x2 : Z) :
  GoInt.min_int < x1 - X sol <= GoInt.max_int ->
  GoInt.min_int < x2 - X sol <= GoInt.max_int ->
  Z.abs (x1 - X sol) <= Z.abs (x2 - X sol) ->
  confidence_of sol x2 = 100 ->
  confidence_of sol x1 = 100.
Proof.
  intros H1 H2 Hd. unfold confidence_of.
  rewrite (delta_of_abs _ _ H1), (delta_of_abs _ _ H2).
  destruct (Z.leb_spec (Z.abs (x2 - X sol)) (tolerance_of sol)); [|discriminate].
  destruct (Z.leb_spec (Z.abs (x1 - X sol)) (tolerance_of sol)); [reflexivity|lia].
Qed.

Lemma closer_never_worse_witness :
  confidence_of (mkSolution 40 25) 37 = 100.
Proof.
  apply (closer_never_worse (mkSolution 40 25) 37 44).
  - unfold GoInt.min_int, GoInt.max_int. simpl. lia.
  - unfold GoInt.min_int, GoInt.max_int. simpl. lia.
  - simpl. lia.
  - reflexivity.
Defined.

(** X10: a higher complexity never makes the check more lenient: with the
    same target, a submission scored 100 under a complexity is scored 100
    under every lower one. *)
Theorem lower_complexity_never_stricter (x c1 c2 clientX : Z) :
  GoInt.in_range c1 -> GoInt.in_range c2 ->
  c1 <= c2 ->
  tolerance_of (mkSolution x c2) <= tolerance_of (mkSolution x c1)
  /\ (confidence_of (mkSolution x c2) clientX = 100 ->
      confidence_of (mkSolution x c1) clientX = 100).
Proof.
  intros H1 H2 Hle.
  assert (Ht : tolerance_of (mkSolution x c2) <= tolerance_of (mkSolution x c1)).
  { rewrite !tolerance_of_trunc by assumption. unfold trunc_tolerance. simpl.
    pose proof (Z.quot_le_mono c1 c2 25 ltac:(lia) Hle). lia. }
  split; [exact Ht|].
  unfold confidence_of.
  change (delta_of (mkSolution x c2) clientX) with (delta_of (mkSolution x c1) clientX).
  destruct (Z.leb_spec (delta_of (mkSolution x c1) clientX)
                       (tolerance_of (mkSolution x c2))); [|discriminate].
  destruct (Z.leb_spec (delta_of (mkSolution x c1) clientX)
                       (tolerance_of (mkSolution x c1))); [reflexivity|lia].
Qed.

Lemma lower_complexity_never_stricter_witness :
  tolerance_of (mkSolution 40 80) <= tolerance_of (mkSolution 40 30)
  /\ (confidence_of (mkSolution 40 80) 42 = 100 ->
      confidence_of (mkSolution 40 30) 42 = 100).
Proof.
  apply (lower_complexity_never_stricter 40 30 80 42);
    unfold GoInt.in_range, GoInt.min_int, GoInt.max_int; lia.
Defined.

(* ===================================================================== *)
(** ** More on the stream loop *)
(* ===================================================================== *)

Lemma stream_loop_cons_event (c : Cache) (t : Turn) (event : ClientEvent.t)
    (rest : list Turn) :
  recv t = RecvEvent event ->
  let r1 := handle_event c event (now t) (send_ok t) in
  let r := stream_loop c (t :: rest) in
  let r2 := stream_loop (fst r1) rest in
  loop_cache r = loop_cache r2
  /\ loop_sent r = sent_by r1 ++ loop_sent r2
  /\ loop_ret r = loop_ret r2.
Proof.
  intros H. destruct t as [rv n ok]. simpl in H. subst rv.
  apply stream_loop_event.
Qed.

(** X11: events of a type other than [FRONTEND_EVENT] are invisible: a
    stream with them leaves the same cache, sends the same results and
    returns the same as the stream without them. *)
Theorem other_events_invisible (turns : list Turn) (c : Cache) :
  loop_cache (stream_loop c turns)
    = loop_cache (stream_loop c (List.filter solution_turn turns))
  /\ loop_sent (stream_loop c turns)
    = loop_sent (stream_loop c (List.filter solution_turn turns))
  /\ loop_ret (stream_loop c turns)
    = loop_ret (stream_loop c (List.filter solution_turn turns)).
Proof.
  revert c. induction turns as [|t rest IH]; intros c; [auto|].
  destruct t as [rv n ok]. destruct rv as [event| |e]; [|simpl; auto|simpl; auto].
  destruct (stream_loop_event c event n ok rest) as (L1 & L2 & L3).
  rewrite L1, L2, L3.
  assert (F : List.filter solution_turn (mkTurn (RecvEvent event) n ok :: rest)
              = if solution_turn (mkTurn (RecvEvent event) n ok)
                then mkTurn (RecvEvent event) n ok :: List.filter solution_turn rest
                else List.filter solution_turn rest) by reflexivity.
  assert (S : solution_turn (mkTurn (RecvEvent event) n ok)
              = match ClientEvent.EventType event with
                | ClientEvent.FRONTEND_EVENT => true
                | ClientEvent.OTHER_EVENT _ => false
                end) by reflexivity.
  rewrite F, S. clear F S.
  destruct (ClientEvent.EventType event) eqn:Ety.
  - destruct (stream_loop_event c event n ok (List.filter solution_turn rest))
      as (M1 & M2 & M3).
    rewrite M1, M2, M3.
    destruct (IH (fst (handle_event c event n ok))) as (I1 & I2 & I3).
    rewrite I1, I2, I3. auto.
  - assert (E : handle_event c event n ok = (c, ([], []))).
    { unfold handle_event. now rewrite Ety. }
    rewrite E. unfold sent_by. simpl. apply IH.
Qed.

(** X12: nothing is processed after a close or a receive error: the turns
    that follow the first of them change neither the cache, nor what is
    sent, nor what the handler returns. *)
Theorem nothing_after_close (pre post : list Turn) (t : Turn) (c : Cache) :
  terminal_turn t ->
  stream_loop c (pre ++ t :: post) = stream_loop c (pre ++ [t]).
Proof.
  intros Ht. revert c. induction pre as [|p pre IH]; intros c.
  - simpl. destruct Ht as [->|[e ->]]; reflexivity.
  - simpl. destruct (recv p) as [event| |e]; [|reflexivity|reflexivity].
    destruct (handle_event c event (now p) (send_ok p)) as [c1 [o1 l1]].
    now rewrite IH.
Qed.

Lemma nothing_after_close_witness :
  stream_loop (cache duplicate_system)
    ([] ++ mkTurn RecvEOF 0 true :: [mkTurn (RecvEvent duplicate_event) 0 true])
  = stream_loop (cache duplicate_system) ([] ++ [mkTurn RecvEOF 0 true]).
Proof.
  apply (nothing_after_close [] [mkTurn (RecvEvent duplicate_event) 0 true]
           (mkTurn RecvEOF 0 true) (cache duplicate_system)).
  left. reflexivity.
Defined.

(** X13: the loop composes: a stream whose first part holds events only
    behaves as that part followed by the rest run on the cache the first
    part left, the results sent being those of the two in order. *)
Theorem stream_loop_app (pre post : list Turn) (c : Cache) :
  only_events pre ->
  loop_cache (stream_loop c (pre ++ post))
    = loop_cache (stream_loop (loop_cache (stream_loop c pre)) post)
  /\ loop_sent (stream_loop c (pre ++ post))
    = loop_sent (stream_loop c pre)
        ++ loop_sent (stream_loop (loop_cache (stream_loop c pre)) post)
  /\ loop_ret (stream_loop c (pre ++ post))
    = loop_ret (stream_loop (loop_cache (stream_loop c pre)) post)
  /\ loop_ret (stream_loop c pre) = None.
Proof.
  intros Hpre. revert c.
  induction Hpre as [|t pre [event Ht] _ IH]; intros c.
  - simpl. unfold loop_cache, loop_sent, loop_ret. simpl. auto.
  - rewrite <- app_comm_cons.
    destruct (stream_loop_cons_event c t event (pre ++ post) Ht) as (L1 & L2 & L3).
    destruct (stream_loop_cons_event c t event pre Ht) as (M1 & M2 & M3).
    destruct (IH (fst (handle_event c event (now t) (send_ok t))))
      as (I1 & I2 & I3 & I4).
    rewrite L1, L2, L3, M1, M2, M3, I1, I2, I3, I4.
    rewrite app_assoc. auto.
Qed.

Lemma stream_loop_app_witness :
  loop_sent (stream_loop (cache duplicate_system)
               ([mkTurn (RecvEvent duplicate_event) 0 true]
                  ++ [mkTurn (RecvEvent duplicate_event) 0 true]))
  = loop_sent (stream_loop (cache duplicate_system)
                 [mkTurn (RecvEvent duplicate_event) 0 true])
      ++ loop_sent
           (stream_loop
              (loop_cache (stream_loop (cache duplicate_system)
                             [mkTurn (RecvEvent duplicate_event) 0 true]))
              [mkTurn (RecvEvent duplicate_event) 0 true]).
Proof.
  refine (proj1 (proj2 (stream_loop_app
            [mkTurn (RecvEvent duplicate_event) 0 true]
            [mkTurn (RecvEvent duplicate_event) 0 true]
            (cache duplicate_system) _))).
  constructor; [|constructor]. exists duplicate_event. reflexivity.
Defined.

Lemma handle_event_cache_cases (c : Cache) (event : ClientEvent.t) (now : Z)
    (ok : bool) :
  fst (handle_event c event now ok) = c
  \/ fst (handle_event c event now ok) = delete (ClientEvent.ChallengeId event) c.
Proof.
  unfold handle_event.
  destruct (ClientEvent.EventType event); [|now left].
  destruct (Atoi _); [|now left].
  destruct (cache_Get c _ now); [now right|now left].
Qed.

(** X14: a stream never adds to the cache, and what it sends is paid for
    with entries: the results sent plus the entries left are no more than
    the entries the stream started with; nor does it send more results than
    it has received events. *)
Theorem results_bounded_by_store (turns : list Turn) (c : Cache) :
  loop_cache (stream_loop c turns) ⊆ c
  /\ (length (loop_sent (stream_loop c turns))
      + size (loop_cache (stream_loop c turns)) <= size c)%nat
  /\ (length (loop_sent (stream_loop c turns)) <= length turns)%nat.
Proof.
  revert c. induction turns as [|[rv n ok] rest IH]; intros c.
  - unfold loop_cache, loop_sent. simpl. repeat split; [reflexivity|lia|lia].
  - destruct rv as [event| |e];
      [|unfold loop_cache, loop_sent; simpl; repeat split; [reflexivity|lia|lia]
       |unfold loop_cache, loop_sent; simpl; repeat split; [reflexivity|lia|lia]].
    destruct (stream_loop_event c event n ok rest) as (L1 & L2 & _).
    rewrite L1, L2, length_app.
    destruct (IH (fst (handle_event c event n ok))) as (I1 & I2 & I3).
    destruct (handle_event_sent_cases c event n ok)
      as [Hs|(conf & Hs & Hsome & Hdel)]; rewrite Hs.
    + assert (Hsub : fst (handle_event c event n ok) ⊆ c).
      { destruct (handle_event_cache_cases c event n ok) as [->| ->];
          [reflexivity|apply delete_subseteq]. }
      pose proof (map_subseteq_size _ _ Hsub).
      repeat split; [etrans; eassumption|simpl; lia|simpl; lia].
    + rewrite Hdel in *.
      pose proof (map_size_delete_Some _ _ Hsome) as Hsz.
      pose proof (map_size_ne_0_lookup_2 _ _ Hsome).
      repeat split;
        [etrans; [exact I1|apply delete_subseteq]|simpl; lia|simpl; lia].
Qed.

(* ===================================================================== *)
(** ** Interleaved handlers: what every schedule keeps *)
(* ===================================================================== *)

Lemma results_for_single (id k : string) (conf : Z) :
  results_for id [ServerEvent.Result k conf]
  = if String.eqb k id then [ServerEvent.Result k conf] else [].
Proof. reflexivity. Qed.

(** Deleting from the cache keeps a handler's invariant. *)
Lemma handler_inv_delete (id k : string) (c : Cache) (h : Handler) :
  handler_inv id c h -> handler_inv id (delete k c) h.
Proof.
  intros [H1 H2]. split; [exact H1|].
  intros Hlen. destruct (H2 Hlen) as [Hpc|Habs]; [now left|right].
  apply lookup_delete_None. now right.
Qed.

(** One call of a handler keeps its invariant, and at most deletes. *)
Lemma handler_step_inv (id : string) (c : Cache) (h : Handler) (now : Z)
    (ok : bool) :
  handler_inv id c h ->
  handler_inv id (fst (handler_step c h now ok)) (snd (handler_step c h now ok))
  /\ (fst (handler_step c h now ok) = c
      \/ exists k, fst (handler_step c h now ok) = delete k c).
Proof.
  destruct h as [p inb out]. unfold handler_inv, answers_for, pending_for, handler_step.
  cbn [pc inbox outbox]. intros [H1 H2].
  destruct p as [|k x|k conf|k|ret].
  - (* AtRecv *)
    assert (Hkeep : forall p',
               match p' with AtSend _ _ | AtDelete _ => False | _ => True end ->
               ((length (results_for id out)
                 + match p' with
                   | AtSend challengeID _ =>
                       if String.eqb challengeID id then 1 else 0
                   | _ => 0
                   end <= 1)%nat
                /\ (length (results_for id out) = 1%nat ->
                    p' = AtDelete id \/ c !! id = None))).
    { intros p' Hp'. split.
      - destruct p'; try contradiction; lia.
      - intros Hlen. right. destruct (H2 Hlen) as [Hpc|Habs];
          [discriminate|exact Habs]. }
    destruct inb as [|[event| |e] rest]; cbn [fst snd pc outbox].
    + split; [|now left]. apply (Hkeep AtRecv). exact I.
    + destruct (ClientEvent.EventType event); [destruct (Atoi _)|];
        cbn [fst snd pc outbox]; (split; [|now left]).
      * apply (Hkeep (AtGet _ _)). exact I.
      * apply (Hkeep AtRecv). exact I.
      * apply (Hkeep AtRecv). exact I.
    + split; [|now left]. apply (Hkeep (Returned None)). exact I.
    + split; [|now left]. apply (Hkeep (Returned (Some e))). exact I.
  - (* AtGet *)
    destruct (cache_Get c k now) as [sol|] eqn:Hget; cbn [fst snd pc outbox];
      (split; [|now left]).
    + split.
      * destruct (String.eqb_spec k id) as [->|_]; [|lia].
        destruct (length (results_for id out)) as [|[|n]] eqn:Hlen; [lia| |lia].
        destruct (H2 eq_refl) as [Hpc|Habs]; [discriminate|].
        rewrite (cache_Get_None_absent c id now Habs) in Hget. discriminate.
      * intros Hlen. right. destruct (H2 Hlen) as [Hpc|Habs];
          [discriminate|exact Habs].
    + split; [lia|].
      intros Hlen. right. destruct (H2 Hlen) as [Hpc|Habs];
        [discriminate|exact Habs].
  - (* AtSend *)
    cbn [fst snd pc outbox]. split; [|now left].
    rewrite results_for_app, length_app.
    assert (Hnew : results_for id (if ok then [ServerEvent.Result k conf] else [])
                   = if (ok && String.eqb k id)%bool
                     then [ServerEvent.Result k conf] else []).
    { destruct ok; [apply results_for_single|reflexivity]. }
    rewrite Hnew.
    destruct (String.eqb_spec k id) as [->|Hne].
    + split; [destruct ok; simpl; lia|]. intros _. now left.
    + rewrite andb_false_r. simpl. split; [lia|].
      intros Hlen. right.
      destruct (H2 ltac:(lia)) as [Hpc|Habs]; [discriminate|exact Habs].
  - (* AtDelete *)
    cbn [fst snd pc outbox]. split; [|right; now exists k].
    split; [lia|].
    intros Hlen. right. unfold cache_Delete.
    destruct (H2 Hlen) as [Hpc|Habs].
    + injection Hpc as ->. apply lookup_delete_eq.
    + apply lookup_delete_None. now right.
  - (* Returned *)
    cbn [fst snd pc outbox]. split; [|now left]. split; [lia|].
    intros Hlen. right. destruct (H2 Hlen) as [Hpc|Habs];
      [discriminate|exact Habs].
Qed.

Lemma system_step_inv (id : string) (sys : System) (t : Tick) :
  system_inv id sys -> system_inv id (system_step sys t).
Proof.
  unfold system_inv, system_step. intros Hinv.
  destruct (handlers sys !! who t) as [h|] eqn:Hh; [|exact Hinv].
  pose proof (proj1 (Forall_lookup _ _) Hinv _ _ Hh) as Hhinv.
  destruct (handler_step_inv id (cache sys) h (tick_now t) (tick_send_ok t) Hhinv)
    as [Hnew Hcache].
  destruct (handler_step (cache sys) h (tick_now t) (tick_send_ok t)) as [c' h'].
  cbn [fst snd cache handlers] in *.
  apply Forall_insert; [|exact Hnew].
  destruct Hcache as [->|[k ->]]; [exact Hinv|].
  eapply Forall_impl; [exact Hinv|].
  intros h0. apply handler_inv_delete.
Qed.

Lemma system_step_handlers_length (sys : System) (t : Tick) :
  length (handlers (system_step sys t)) = length (handlers sys).
Proof.
  unfold system_step.
  destruct (handlers sys !! who t) as [h|]; [|reflexivity].
  destruct (handler_step _ _ _ _) as [c' h']. simpl. apply length_insert.
Qed.

Lemma run_inv (id : string) (schedule : list Tick) (sys : System) :
  system_inv id sys ->
  system_inv id (run sys schedule)
  /\ length (handlers (run sys schedule)) = length (handlers sys).
Proof.
  revert sys. induction schedule as [|t rest IH]; intros sys Hinv; [now split|].
  simpl. destruct (IH (system_step sys t) (system_step_inv id sys t Hinv))
    as [H1 H2].
  split; [exact H1|]. now rewrite H2, system_step_handlers_length.
Qed.

Lemma results_for_concat_bound (id : string) (hs : list Handler) :
  Forall (fun h => (length (results_for id (outbox h)) <= 1)%nat) hs ->
  (length (results_for id (concat (map outbox hs))) <= length hs)%nat.
Proof.
  induction 1 as [|h hs Hh _ IH]; [simpl; lia|].
  simpl. rewrite results_for_app, length_app. lia.
Qed.

(** X15: under every interleaving of the handlers' calls, and for every id,
    each stream sends at most one result for the id, so that the results
    for one id are never more than the streams that are open.  (The bound
    is reached: two streams can both answer.) *)
Theorem one_answer_per_stream (sys : System) (schedule : list Tick) (id : string) :
  Forall (fun h => pc h = AtRecv /\ outbox h = []) (handlers sys) ->
  Forall (fun h => (length (results_for id (outbox h)) <= 1)%nat)
         (handlers (run sys schedule))
  /\ (length (all_results_for id (run sys schedule)) <= length (handlers sys))%nat.
Proof.
  intros Hinit.
  assert (Hinv : system_inv id sys).
  { unfold system_inv. eapply Forall_impl; [exact Hinit|].
    intros h [Hpc Hout]. unfold handler_inv, answers_for, pending_for.
    rewrite Hpc, Hout. simpl. split; [lia|]. intros H. discriminate. }
  destruct (run_inv id schedule sys Hinv) as [Hrun Hlen].
  assert (Hone : Forall (fun h => (length (results_for id (outbox h)) <= 1)%nat)
                        (handlers (run sys schedule))).
  { eapply Forall_impl; [exact Hrun|].
    intros h [H1 _]. unfold answers_for in H1. lia. }
  split; [exact Hone|].
  unfold all_results_for. rewrite <- Hlen.
  now apply results_for_concat_bound.
Qed.

Lemma one_answer_per_stream_witness :
  (length (all_results_for "a" (run duplicate_system alternating_schedule))
   <= length (handlers duplicate_system))%nat.
Proof.
  refine (proj2 (one_answer_per_stream duplicate_system alternating_schedule "a" _)).
  repeat constructor.
Defined.

(* ===================================================================== *)
(** ** A challenge from creation to redemption *)
(* ===================================================================== *)

(** X16: a challenge just created is redeemed by its exact coordinate: a
    solution event for the returned id whose data parses to the stored
    coordinate, handled no later than [defaultExpiration] after the
    creation, is answered with confidence 100 whatever the complexity, and
    consumes the entry. *)
Theorem created_then_solved (png : Image -> option string)
    (b64 : string -> string) (s s' : captchaService) (req : ChallengeRequest.t)
    (challengeID : string) (now : Z) (r r' : Rand)
    (resp : ChallengeResponse.t) (log : list LogMsg) :
  NewChallenge png b64 s req challengeID now r = (Ok resp, s', r', log) ->
  exists sol : solution,
    cache_Get (challenges s') (ChallengeResponse.ChallengeId resp) now = Some sol
    /\ forall (data : string) (now' : Z),
         Atoi data = Some (X sol) ->
         now' <= now + defaultExpiration ->
         sent_by (handle_event (challenges s')
                    (ClientEvent.mk ClientEvent.FRONTEND_EVENT
                       (ChallengeResponse.ChallengeId resp) data) now' true)
           = [ServerEvent.Result (ChallengeResponse.ChallengeId resp) 100]
         /\ fst (handle_event (challenges s')
                   (ClientEvent.mk ClientEvent.FRONTEND_EVENT
                      (ChallengeResponse.ChallengeId resp) data) now' true)
              !! ChallengeResponse.ChallengeId resp = None.
Proof.
  unfold NewChallenge.
  destruct (Generate png b64 (generator s) r) as [[[html x]|e|] r0];
    intros H; inversion H; subst; clear H. cbn [ChallengeResponse.ChallengeId
    challenges with_challenges].
  exists (mkSolution x (ChallengeRequest.Complexity req)). split.
  - apply cache_Get_Set_eq. unfold defaultExpiration. lia.
  - intros data now' Hparse Hnow.
    pose proof (cache_Get_Set_eq (challenges s) challengeID
                  (mkSolution x (ChallengeRequest.Complexity req)) now now' Hnow)
      as Hget.
    destruct (handle_event_found _
                (ClientEvent.mk ClientEvent.FRONTEND_EVENT challengeID data)
                now' true _ _ eq_refl Hparse Hget) as [Hc Hs].
    cbn [ClientEvent.ChallengeId] in *. rewrite Hc, Hs. split.
    + f_equal. f_equal. unfold confidence_of.
      rewrite delta_of_abs
        by (cbn [X]; unfold GoInt.min_int, GoInt.max_int; lia).
      cbn [X]. replace (x - x) with 0 by lia. change (Z.abs 0) with 0.
      pose proof (tolerance_of_ge_1 (mkSolution x (ChallengeRequest.Complexity req))).
      destruct (Z.leb_spec 0 (tolerance_of
                                (mkSolution x (ChallengeRequest.Complexity req))));
        [reflexivity|lia].
    + unfold cache_Delete. apply lookup_delete_eq.
Qed.

Lemma created_then_solved_witness :
  exists sol : solution,
    cache_Get
      {[ "id-1"%string := mkItem (mkSolution 65 50) (7 + defaultExpiration) ]}
      "id-1" 7 = Some sol
    /\ forall (data : string) (now' : Z),
         Atoi data = Some (X sol) ->
         now' <= 7 + defaultExpiration ->
         sent_by (handle_event
                    {[ "id-1"%string := mkItem (mkSolution 65 50) (7 + defaultExpiration) ]}
                    (ClientEvent.mk ClientEvent.FRONTEND_EVENT "id-1" data) now' true)
           = [ServerEvent.Result "id-1" 100]
         /\ fst (handle_event
                   {[ "id-1"%string := mkItem (mkSolution 65 50) (7 + defaultExpiration) ]}
                   (ClientEvent.mk ClientEvent.FRONTEND_EVENT "id-1" data) now' true)
              !! "id-1"%string = None.
Proof.
  exact (created_then_solved sample_png sample_base64 sample_service
           (mkService
              {[ "id-1"%string := mkItem (mkSolution 65 50) (7 + defaultExpiration) ]}
              sample_generator)
           (ChallengeRequest.mk 50) "id-1" 7 sample_rand (fun _ => 22)
           (ChallengeResponse.mk "id-1" "background|piece")
           [LogGenerating 50 "id-1"; LogGenerated 65]
           eq_refl).
Defined.

(* ===================================================================== *)
(** ** Start-up *)
(* ===================================================================== *)

Lemma findFreePort_from_spec (fuel : nat) (listen_ok : Z -> bool)
    (min max port : Z) :
  max < GoInt.max_int -> GoInt.min_int <= port ->
  (Z.to_nat (max + 1 - port) < fuel)%nat ->
  match findFreePort_from fuel listen_ok min max port with
  | Some (Ok p) =>
      port <= p <= max /\ listen_ok p = true
      /\ forall q, port <= q < p -> listen_ok q = false
  | Some (Err e) =>
      e = ("no free ports in range " ++ format_int min ++ "-" ++ format_int max)%string
      /\ forall q, port <= q <= max -> listen_ok q = false
  | _ => False
  end.
Proof.
  intros Hmax. revert port. induction fuel as [|fuel IH]; intros port Hmin Hfuel;
    [lia|].
  simpl. destruct (Z.leb_spec port max) as [Hle|Hgt].
  - destruct (listen_ok port) eqn:Hok.
    + repeat split; [lia|lia|exact Hok|]. intros q Hq. lia.
    + assert (Hnext : GoInt.add port 1 = port + 1).
      { unfold GoInt.add. apply wrap_in_range.
        unfold GoInt.in_range, GoInt.min_int, GoInt.max_int in *. lia. }
      rewrite Hnext.
      specialize (IH (port + 1) ltac:(lia) ltac:(lia)).
      destruct (findFreePort_from fuel listen_ok min max (port + 1))
        as [[p|e|]|]; try contradiction.
      * destruct IH as (H1 & H2 & H3). repeat split; [lia|lia|exact H2|].
        intros q Hq. destruct (Z.eq_dec q port) as [->|]; [exact Hok|].
        apply H3. lia.
      * destruct IH as [H1 H2]. split; [exact H1|].
        intros q Hq. destruct (Z.eq_dec q port) as [->|]; [exact Hok|].
        apply H2. lia.
  - split; [reflexivity|]. intros q Hq. lia.
Qed.

(** X17: [findFreePort(min, max)] returns the lowest port of [min..max] on
    which listening succeeds, and fails exactly when listening succeeds on
    none of them (in particular when the range is empty); the loop ends
    within [max - min + 2] iterations. *)
Theorem findFreePort_least (fuel : nat) (listen_ok : Z -> bool) (min max : Z) :
  GoInt.min_int <= min -> max < GoInt.max_int ->
  (Z.to_nat (max + 1 - min) < fuel)%nat ->
  (forall p : Z,
      findFreePort fuel listen_ok min max = Some (Ok p)
      <-> min <= p <= max /\ listen_ok p = true
          /\ forall q, min <= q < p -> listen_ok q = false)
  /\ ((exists e, findFreePort fuel listen_ok min max = Some (Err e))
      <-> forall q, min <= q <= max -> listen_ok q = false).
Proof.
  intros Hmin Hmax Hfuel. unfold findFreePort.
  pose proof (findFreePort_from_spec fuel listen_ok min max min Hmax Hmin Hfuel)
    as Hspec.
  destruct (findFreePort_from fuel listen_ok min max min) as [[p0|e0|]|];
    try contradiction.
  - destruct Hspec as (H1 & H2 & H3). split.
    + intros p. split.
      * intros [= <-]. auto.
      * intros (P1 & P2 & P3). f_equal. f_equal.
        destruct (Z.lt_trichotomy p0 p) as [Hlt|[Heq|Hgt]]; [|exact Heq|].
        -- rewrite (P3 p0) in H2 by lia. discriminate.
        -- rewrite (H3 p) in P2 by lia. discriminate.
    + split.
      * intros [e He]. discriminate.
      * intros Hnone. rewrite (Hnone p0) in H2 by lia. discriminate.
  - destruct Hspec as [_ Hnone]. split.
    + intros p. split; [discriminate|].
      intros (P1 & P2 & _). rewrite (Hnone p P1) in P2. discriminate.
    + split; [intros _; exact Hnone|]. intros _. now exists e0.
Qed.

Lemma findFreePort_least_witness :
  findFreePort 2002 (fun p => 38002 <=? p) minPort maxPort = Some (Ok 38002)
  <-> minPort <= 38002 <= maxPort /\ (38002 <=? 38002) = true
      /\ forall q, minPort <= q < 38002 -> (38002 <=? q) = false.
Proof.
  apply (proj1 (findFreePort_least 2002 (fun p => 38002 <=? p) minPort maxPort
                  ltac:(unfold GoInt.min_int, minPort; lia)
                  ltac:(unfold GoInt.max_int, maxPort; lia)
                  ltac:(unfold minPort, maxPort; simpl; lia)) 38002).
Defined.

(** X18: when [main] gets as far as serving, it serves on the lowest port
    of 38000..40000 on which the probe could listen, with an empty
    challenge cache and a generator whose sizes are those of the decoded
    background; and the start-up always comes to an end, serving or fatal. *)
Theorem main_serves_lowest_port (fuel : nat) (listen_ok : Z -> bool)
    (relisten_ok : bool) (decoded : option Image) (parsed : option Template) :
  (2001 < fuel)%nat ->
  main_startup fuel listen_ok relisten_ok decoded parsed <> None
  /\ forall (port : Z) (s : captchaService),
       main_startup fuel listen_ok relisten_ok decoded parsed
         = Some (Serving port s) ->
       minPort <= port <= maxPort /\ listen_ok port = true
       /\ (forall q, minPort <= q < port -> listen_ok q = false)
       /\ challenges s = ∅
       /\ exists (bg : Image) (tmpl : Template),
            decoded = Some bg /\ parsed = Some tmpl
            /\ generator s
               = mkGenerator bg (Dx (Bounds bg)) (Dy (Bounds bg)) tmpl.
Proof.
  intros Hfuel. unfold main_startup, findFreePort.
  pose proof (findFreePort_from_spec fuel listen_ok minPort maxPort minPort
                ltac:(unfold GoInt.max_int, maxPort; lia)
                ltac:(unfold GoInt.min_int, minPort; lia)
                ltac:(unfold minPort, maxPort; simpl; lia)) as Hspec.
  destruct (findFreePort_from fuel listen_ok minPort maxPort minPort)
    as [[p|e|]|]; try contradiction.
  - destruct Hspec as (H1 & H2 & H3).
    destruct relisten_ok; cbn [negb]; [|split; [discriminate|discriminate]].
    unfold New. destruct decoded as [bg|]; [|split; [discriminate|discriminate]].
    destruct parsed as [tmpl|]; [|split; [discriminate|discriminate]].
    split; [discriminate|].
    intros port s [= <- <-]. repeat split; try assumption; try lia.
    exists bg, tmpl. auto.
  - split; [discriminate|discriminate].
Qed.

Lemma main_serves_lowest_port_witness :
  main_startup 2002 (fun p => 38002 <=? p) true
    (Some sample_background) (Some sample_template) <> None.
Proof.
  apply (proj1 (main_serves_lowest_port 2002 (fun p => 38002 <=? p) true
                  (Some sample_background) (Some sample_template)
                  ltac:(lia))).
Defined.

Example main_startup_sample :
  main_startup 2002 (fun p => 38002 <=? p) true
    (Some sample_background) (Some sample_template)
  = Some (Serving 38002 sample_service).
Proof. vm_compute. reflexivity. Qed.

(* ===================================================================== *)
(** ** Registration and heartbeats *)
(* ===================================================================== *)

Lemma heartbeat_loop_spec (ticks : list (Z * bool)) (req : RegisterInstanceRequest.t) :
  Forall (fun sent_req =>
            RegisterInstanceRequest.with_Timestamp sent_req 0
            = RegisterInstanceRequest.with_Timestamp req 0)
         (fst (heartbeat_loop req ticks))
  /\ map RegisterInstanceRequest.Timestamp (fst (heartbeat_loop req ticks))
     = map fst (successful_prefix ticks)
  /\ snd (heartbeat_loop req ticks)
     = if (length (successful_prefix ticks) =? length ticks)%nat
       then AwaitingTick else HeartbeatFailed.
Proof.
  revert req. induction ticks as [|[ts ok] rest IH]; intros req.
  - simpl. auto.
  - simpl. destruct ok; [|simpl; auto].
    specialize (IH (RegisterInstanceRequest.with_Timestamp req ts)).
    destruct (heartbeat_loop (RegisterInstanceRequest.with_Timestamp req ts) rest)
      as [sent exit].
    cbn [fst snd] in *. destruct IH as (I1 & I2 & I3).
    repeat split.
    + constructor; [reflexivity|]. exact I1.
    + simpl. now rewrite I2.
    + simpl. exact I3.
Qed.

(** X19: every request [connectToBalancer] sends is a [READY] request with
    the identifier drawn at start-up, the challenge type, the host and the
    port it was given; only the timestamp changes.  For a port of
    38000..40000 the 32-bit conversion keeps the port number. *)
Theorem requests_name_the_instance (host : string) (port : Z)
    (dial_ok open_ok : bool) (instanceID : string) (start : Z)
    (register_ok : bool) (ticks : list (Z * bool)) :
  Forall (fun req =>
            RegisterInstanceRequest.EventType req = RegisterInstanceRequest.READY
            /\ RegisterInstanceRequest.InstanceId req = instanceID
            /\ RegisterInstanceRequest.ChallengeType req = challengeType
            /\ RegisterInstanceRequest.Host req = host
            /\ RegisterInstanceRequest.PortNumber req = int32_of_int port)
         (fst (connectToBalancer host port dial_ok open_ok instanceID start
                 register_ok ticks))
  /\ (minPort <= port <= maxPort -> int32_of_int port = port).
Proof.
  split.
  - unfold connectToBalancer.
    destruct dial_ok; [|constructor]. destruct open_ok; [|constructor].
    destruct register_ok; [|constructor]. cbn [negb].
    match goal with
    | |- context [heartbeat_loop ?rq ticks] =>
        pose proof (proj1 (heartbeat_loop_spec ticks rq)) as Hall;
        destruct (heartbeat_loop rq ticks) as [sent exit]
    end.
    cbn [fst] in *. constructor; [simpl; auto|].
    eapply Forall_impl; [exact Hall|].
    intros [ty iid cty h pn ts]. unfold RegisterInstanceRequest.with_Timestamp.
    simpl. intros [= -> -> -> -> ->]. auto.
  - intros Hp. unfold int32_of_int, minPort, maxPort in *.
    rewrite Z.mod_small by lia. lia.
Qed.

(** X20: [connectToBalancer] sends nothing when the dial, the opening of
    the stream or the registration fails; otherwise it sends the
    registration, stamped with the start time, and then one heartbeat per
    tick, stamped with the tick's time, up to the first heartbeat that
    cannot be sent: after that one it sends nothing more and returns. *)
Theorem heartbeats_stop_at_first_failure (host : string) (port : Z)
    (dial_ok open_ok : bool) (instanceID : string) (start : Z)
    (register_ok : bool) (ticks : list (Z * bool)) :
  let result :=
    connectToBalancer host port dial_ok open_ok instanceID start register_ok ticks in
  map RegisterInstanceRequest.Timestamp (fst result)
  = (if (dial_ok && open_ok && register_ok)%bool
     then start :: map fst (successful_prefix ticks)
     else [])
  /\ (snd result = HeartbeatFailed
      <-> (dial_ok && open_ok && register_ok)%bool = true
          /\ length (successful_prefix ticks) <> length ticks)
  /\ (snd result = AwaitingTick
      <-> (dial_ok && open_ok && register_ok)%bool = true
          /\ length (successful_prefix ticks) = length ticks).
Proof.
  unfold connectToBalancer.
  destruct dial_ok; cbn [negb andb];
    [|repeat split; try discriminate; intros [? _]; discriminate].
  destruct open_ok; cbn [negb andb];
    [|repeat split; try discriminate; intros [? _]; discriminate].
  destruct register_ok; cbn [negb andb];
    [|repeat split; try discriminate; intros [? _]; discriminate].
  match goal with
  | |- context [heartbeat_loop ?rq ticks] =>
      pose proof (heartbeat_loop_spec ticks rq) as (_ & H2 & H3);
      destruct (heartbeat_loop rq ticks) as [sent exit]
  end.
  cbn [fst snd] in *. subst exit. split; [simpl; now rewrite H2|].
  destruct (Nat.eqb_spec (length (successful_prefix ticks)) (length ticks)).
  - intuition (discriminate || congruence).
  - intuition (discriminate || congruence).
Qed.

(** X21: the mock balancer logs what the instance sent: fed the requests
    of [connectToBalancer] and then the end of the stream, [RegisterInstance]
    writes one line per request, each naming the instance's id, host and
    port, between its opening and closing lines, and returns [nil]. *)
Theorem balancer_logs_requests (host : string) (port : Z)
    (dial_ok open_ok : bool) (instanceID : string) (start : Z)
    (register_ok : bool) (ticks : list (Z * bool)) :
  let sent :=
    fst (connectToBalancer host port dial_ok open_ok instanceID start
           register_ok ticks) in
  RegisterInstance (map BalancerRequest sent ++ [BalancerEOF])
  = (BLogRegistering
       :: repeat (BLogEvent instanceID RegisterInstanceRequest.READY host
                    (int32_of_int port)) (length sent)
       ++ [BLogDisconnected],
     Some None).
Proof.
  intros sent.
  assert (Hall : Forall (fun req =>
                   balancer_log_of req
                   = BLogEvent instanceID RegisterInstanceRequest.READY host
                       (int32_of_int port)) sent).
  { unfold sent, connectToBalancer.
    destruct dial_ok; [|constructor]. destruct open_ok; [|constructor].
    destruct register_ok; [|constructor]. cbn [negb].
    match goal with
    | |- context [heartbeat_loop ?rq ticks] =>
        pose proof (proj1 (heartbeat_loop_spec ticks rq)) as Hall;
        destruct (heartbeat_loop rq ticks) as [sent' exit]
    end.
    cbn [fst] in *. constructor; [reflexivity|].
    eapply Forall_impl; [exact Hall|].
    intros [ty iid cty h pn ts]. unfold RegisterInstanceRequest.with_Timestamp,
      balancer_log_of. simpl. intros [= -> -> -> -> ->]. reflexivity. }
  clearbody sent. unfold RegisterInstance.
  assert (Hloop : RegisterInstance_loop (map BalancerRequest sent ++ [BalancerEOF])
                  = (repeat (BLogEvent instanceID RegisterInstanceRequest.READY host
                               (int32_of_int port)) (length sent)
                       ++ [BLogDisconnected], Some None)).
  { induction Hall as [|req rest Hreq _ IH]; [reflexivity|].
    simpl. rewrite IH, Hreq. reflexivity. }
  now rewrite Hloop.
Qed.

Lemma requests_name_the_instance_witness :
  int32_of_int 38002 = 38002.
Proof.
  apply (proj2 (requests_name_the_instance instanceHost 38002 true true "i-1" 0
                  true [])).
  unfold minPort, maxPort. lia.
Defined.

(** A port number beyond 32 bits would not survive the conversion. *)
Example int32_of_int_truncates : int32_of_int (2 ^ 32 + 38000) = 38000.
Proof. reflexivity. Qed.

(* ===================================================================== *)
(** ** The simple-button service *)
(* ===================================================================== *)

(** X22: in the simple-button service a challenge created from a readable
    page is returned with the page unchanged; a solution event for its id
    handled within [defaultExpiration] consumes the entry whatever its data
    (there is no parsing step) and is answered 100 exactly when the data is
    the string [success]; handled later, it is answered with nothing. *)
Theorem simple_button_redeemed (c : gmap string SimpleButton.Item)
    (challengeID content data : string) (now now' : Z) (ok : bool) :
  let created := SimpleButton.NewChallenge c challengeID now (Some content) in
  let c1 := snd (fst created) in
  let event := ClientEvent.mk ClientEvent.FRONTEND_EVENT challengeID data in
  fst (fst created) = Ok (ChallengeResponse.mk challengeID content)
  /\ (now' <= now + defaultExpiration ->
      fst (snd (SimpleButton.handle_event c1 event now' ok))
        = (if ok
           then [ServerEvent.Result challengeID
                   (if String.eqb data "success" then 100 else 0)]
           else [])
      /\ fst (SimpleButton.handle_event c1 event now' ok) !! challengeID = None)
  /\ (now + defaultExpiration < now' ->
      fst (snd (SimpleButton.handle_event c1 event now' ok)) = []
      /\ fst (SimpleButton.handle_event c1 event now' ok) = c1).
Proof.
  cbn zeta. unfold SimpleButton.NewChallenge. cbn [fst snd].
  split; [reflexivity|].
  unfold SimpleButton.handle_event, SimpleButton.cache_Get, SimpleButton.cache_Set,
    SimpleButton.expired, SimpleButton.cache_Delete.
  cbn [ClientEvent.EventType ClientEvent.ChallengeId ClientEvent.Data].
  rewrite lookup_insert_eq. cbn [SimpleButton.Expiration SimpleButton.Object].
  split; intros Hnow.
  - destruct (Z.ltb_spec (now + defaultExpiration) now'); [lia|].
    cbn [fst snd]. split; [reflexivity|]. apply lookup_delete_eq.
  - destruct (Z.ltb_spec (now + defaultExpiration) now'); [|lia].
    cbn [fst snd]. auto.
Qed.

Lemma simple_button_redeemed_witness :
  fst (snd (SimpleButton.handle_event
              (snd (fst (SimpleButton.NewChallenge ∅ "id-1" 7 (Some "<html>"%string))))
              (ClientEvent.mk ClientEvent.FRONTEND_EVENT "id-1" "abc") 8 true))
  = [ServerEvent.Result "id-1" 0].
Proof.
  refine (proj1 (proj1 (proj2 (simple_button_redeemed ∅ "id-1" "<html>" "abc"
                                 7 8 true)) _)).
  unfold defaultExpiration. lia.
Defined.

(** X23: when the page cannot be read, the simple-button service answers
    with the internal error and stores nothing; and a stream of the
    simple-button service never adds an entry: every entry of the cache
    after the loop was there before, unchanged. *)
Theorem simple_button_never_adds (c : gmap string SimpleButton.Item)
    (challengeID : string) (clock : Z) (turns : list Turn) :
  fst (SimpleButton.NewChallenge c challengeID clock None)
    = (Err "internal server error", c)
  /\ fst (fst (SimpleButton.stream_loop c turns)) ⊆ c.
Proof.
  split; [reflexivity|].
  revert c. induction turns as [|t rest IH]; intros c; [reflexivity|].
  simpl. destruct (recv t) as [event| |e]; [|reflexivity|reflexivity].
  assert (Hsub : fst (SimpleButton.handle_event c event (now t) (send_ok t)) ⊆ c).
  { unfold SimpleButton.handle_event.
    destruct (ClientEvent.EventType event); [|reflexivity].
    destruct (SimpleButton.cache_Get c _ _); [|reflexivity].
    apply delete_subseteq. }
  destruct (SimpleButton.handle_event c event (now t) (send_ok t))
    as [c1 [o1 l1]].
  specialize (IH c1).
  destruct (SimpleButton.stream_loop c1 rest) as [[c2 [o2 l2]] ret].
  cbn [fst] in *. etrans; eassumption.
Qed.

(* ===================================================================== *)
(** ** The test client against the service *)
(* ===================================================================== *)



(** X25: what the handler returns, and when, is decided by what [Recv]
    returns alone: two runs that receive the same sequence return the same,
    whatever their caches hold, whatever the clock reads and whether or not
    their sends succeed; and the handler is still running exactly when
    neither a close nor a receive error has arrived. *)
Theorem return_decided_by_recv (turns turns' : list Turn) (c c' : Cache) :
  map recv turns = map recv turns' ->
  loop_ret (stream_loop c turns) = loop_ret (stream_loop c' turns')
  /\ (loop_ret (stream_loop c turns) = None <-> only_events turns).
Proof.
  intros Hrecv. split.
  - revert turns' c c' Hrecv.
    induction turns as [|t rest IH]; intros [|t' rest'] c c' Hrecv;
      try discriminate; [reflexivity|].
    injection Hrecv as Ht Hrest.
    destruct (recv t) as [event| |e] eqn:Hr.
    + destruct (stream_loop_cons_event c t event rest Hr) as (_ & _ & ->).
      destruct (stream_loop_cons_event c' t' event rest' (eq_sym Ht)) as (_ & _ & ->).
      now apply IH.
    + simpl. rewrite Hr, <- Ht. reflexivity.
    + simpl. rewrite Hr, <- Ht. reflexivity.
  - clear turns' c' Hrecv. revert c.
    induction turns as [|t rest IH]; intros c.
    + split; [constructor|reflexivity].
    + destruct (recv t) as [event| |e] eqn:Hr.
      * destruct (stream_loop_cons_event c t event rest Hr) as (_ & _ & ->).
        rewrite IH. split.
        -- intros H. constructor; [now exists event|exact H].
        -- intros H. now inversion H.
      * simpl. rewrite Hr. split; [discriminate|].
        intros H. inversion H as [|? ? [ev Hev] _]. congruence.
      * simpl. rewrite Hr. split; [discriminate|].
        intros H. inversion H as [|? ? [ev Hev] _]. congruence.
Qed.

Lemma return_decided_by_recv_witness :
  loop_ret (stream_loop (cache duplicate_system)
              [mkTurn (RecvEvent duplicate_event) 0 true; mkTurn RecvEOF 1 true])
  = loop_ret (stream_loop ∅
                [mkTurn (RecvEvent duplicate_event) 5 false; mkTurn RecvEOF 9 false]).
Proof.
  apply (proj1 (return_decided_by_recv
                  [mkTurn (RecvEvent duplicate_event) 0 true; mkTurn RecvEOF 1 true]
                  [mkTurn (RecvEvent duplicate_event) 5 false; mkTurn RecvEOF 9 false]
                  (cache duplicate_system) ∅ eq_refl)).
Defined.
